(** * Post Bank

    A shallow embedding of the store, the bulk-generation orchestrator and
    the reminder scheduler of [src/App.tsx], and the properties proved of
    them.

    Conventions.
    - The IndexedDB tables ([db.posts], [db.reminders]) are finite maps from
      the auto-incremented primary key to the stored record, threaded
      explicitly through every handler.
    - A handler reads the React state of the render that created it, so the
      state values it closes over ([genConfig], [selectedPost], ...) are
      its parameters; the state setters it calls, the dialogs it opens and
      the requests it sends are recorded, in order, in an event log.
    - The outside world (the two generative services, [Math.random],
      [Date.now], the Notification API) is an explicit environment.
    - JavaScript numbers that hold integers are [Z]; the two places where
      the code divides ([Math.ceil (totalToGen / chunkSize)] and the
      progress percentage) are computed on binary64 floats. *)

From Stdlib Require Import ZArith Floats Uint63 List Lia.
From stdpp Require Import base option gmap list strings sorting.

Local Open Scope Z_scope.

(** ** JavaScript numerics *)

Module JS.

(** The number holding the integer [z] (exact for |z| <= 2^53). *)
Definition of_Z (z : Z) : float :=
  if z <? 0 then PrimFloat.opp (PrimFloat.of_uint63 (Uint63.of_Z (- z)))
  else PrimFloat.of_uint63 (Uint63.of_Z z).

(** A finite float is [n * 2^e] for a signed integer mantissa [n]. *)
Definition mantissa (s : bool) (m : positive) : Z :=
  if s then Z.neg m else Z.pos m.

(** [Math.ceil]: the least integer not below the argument.  Zero and the
    non-finite values (which [Math.ceil] returns unchanged) map to 0; the
    code never loops on them. *)
Definition Math_ceil (x : float) : Z :=
  match Prim2SF x with
  | S754_finite s m e =>
      if 0 <=? e then mantissa s m * 2 ^ e
      else - ((- mantissa s m) / 2 ^ (- e))
  | _ => 0
  end.

(** [Math.round]: the nearest integer, a tie going up, that is
    [floor (x + 1/2)] computed exactly. *)
Definition Math_round (x : float) : Z :=
  match Prim2SF x with
  | S754_finite s m e =>
      if 0 <=? e then mantissa s m * 2 ^ e
      else (2 * mantissa s m + 2 ^ (- e)) / 2 ^ (1 - e)
  | _ => 0
  end.

(** Exceptions the modelled code can raise. *)
Inductive Exn :=
  | RequestError      (* a rejected promise of the generative client *)
  | TypeError         (* a property read on [undefined] or [null] *)
  | ReferenceError.   (* a global that is not defined *)

(** The result of a call that may throw (or of an awaited promise that may
    reject). *)
Inductive Result (A : Type) :=
  | Return (a : A)
  | Throw (e : Exn).
Global Arguments Return {A} a.
Global Arguments Throw {A} e.

(** [s || d] for strings: the empty string is falsy. *)
Definition or_else (s : option string) (d : string) : string :=
  match s with
  | Some (String c r) => String c r
  | _ => d
  end.

End JS.
Import JS.

(** ** The Dexie tables (App.tsx, lines 61-74)

    A table declared with the schema ["++id, ..."] keys its rows by an
    auto-incremented integer.  [add] and [bulkAdd] draw fresh keys in
    order; [update] changes the row under a key and [delete] removes it,
    and both resolve normally when the key holds no row (the number of
    modified rows that [update] resolves to is discarded by every caller,
    so it is not modelled).  The [id] property of a stored record is the
    key it is stored under, so rows are modelled without it and queries
    return key/row pairs. *)

Module Dexie.

Record Table (A : Type) := mkTable {
  rows : gmap N A;
  next_key : N
}.
Global Arguments mkTable {A} _ _.
Global Arguments rows {A} _.
Global Arguments next_key {A} _.

Definition empty {A} : Table A := mkTable ∅ 1%N.

Definition add {A} (x : A) (t : Table A) : Table A :=
  mkTable (<[next_key t := x]> (rows t)) (N.succ (next_key t)).

Definition bulkAdd {A} (xs : list A) (t : Table A) : Table A :=
  fold_left (fun acc x => add x acc) xs t.

Definition update {A} (k : N) (changes : A → A) (t : Table A) : Table A :=
  mkTable (alter changes k (rows t)) (next_key t).

Definition delete {A} (k : N) (t : Table A) : Table A :=
  mkTable (base.delete k (rows t)) (next_key t).

Definition count {A} (t : Table A) : nat := size (rows t).

(** Order of an index on the integer property [ix]: by the property, ties
    by primary key. *)
Definition index_le {A} (ix : A → Z) : relation (N * A) :=
  fun a b => ix a.2 < ix b.2 ∨ (ix a.2 = ix b.2 ∧ (a.1 ≤ b.1)%N).

(** [orderBy(ix).toArray()] *)
Definition orderBy {A} (ix : A → Z) (t : Table A) : list (N * A) :=
  merge_sort (index_le ix) (map_to_list (rows t)).

End Dexie.

Global Arguments Dexie.bulkAdd : simpl never.

(** ** Records (App.tsx, lines 42-59) *)

Record Post := mkPost {
  title : string;
  content : string;
  thumbnail_url : string;
  thumbnail_prompt : option string;
  style : string;
  virality_score : Z;
  created_at : Z
}.

Record Reminder := mkReminder {
  postId : N;
  postTitle : string;
  time : Z;
  notified : bool
}.

Record DB := mkDB {
  posts : Dexie.Table Post;
  reminders : Dexie.Table Reminder
}.

Definition with_posts (f : Dexie.Table Post → Dexie.Table Post) (db : DB) : DB :=
  mkDB (f (posts db)) (reminders db).

Definition with_reminders (f : Dexie.Table Reminder → Dexie.Table Reminder)
    (db : DB) : DB :=
  mkDB (posts db) (f (reminders db)).

(** The partial records passed to [update]. *)
Definition set_text (t c : string) (p : Post) : Post :=
  mkPost t c (thumbnail_url p) (thumbnail_prompt p) (style p)
    (virality_score p) (created_at p).

Definition set_thumbnail (url prompt : string) (p : Post) : Post :=
  mkPost (title p) (content p) url (Some prompt) (style p)
    (virality_score p) (created_at p).

Definition set_notified (b : bool) (r : Reminder) : Reminder :=
  mkReminder (postId r) (postTitle r) (time r) b.

(** ** Events *)

Record GenConfig := mkGenConfig {
  topic : string;
  gen_style : string;
  count : Z
}.

Inductive Event :=
  | SetIsGenerating (b : bool)
  | SetProgress (p : Z)
  | SetShowGenModal (b : bool)
  | SetGenConfig (c : GenConfig)
  | SetSelectedPost (p : option (N * Post))
  | SetIsEditing (b : bool)
  | SetCustomThumbPrompt (s : string)
  | SetIsRegeneratingThumb (b : bool)
  | SetReminderTime (s : string)
  | TextRequest (n : Z)                (* generatePostsBulk (.., .., n) *)
  | ThumbnailRequest (content : string)   (* generateThumbnail (content) *)
  | ConsoleError (msg : string)
  | ConsoleWarn (msg : string)
  | Confirm (msg : string)
  | Alert (msg : string)
  | Notification (ntitle body : string).

(** ** The generative services *)

(** A draft as the text service is asked to return it. *)
Record Draft := mkDraft {
  d_title : string;
  d_content : string;
  d_virality_score : Z
}.

(** What [JSON.parse] makes of a response text, as far as the code looks at
    it: the parse raises a syntax error, or yields [null], or yields a value
    whose [posts] property is absent or is an array of drafts. *)
Inductive Json :=
  | JsonNull
  | JsonValue (posts_property : option (list Draft)).

Inductive ResponseText :=
  | Unparsable
  | Parses (v : Json).

(** A call of [generateThumbnail] sends up to two requests; each resolves or
    rejects.  A resolved image response either has the list of parts the
    code reads as [response.candidates[0].content.parts], each part with
    its inline data if it has any, or lacks it ([None]: no candidates, no
    content or no parts), in which case reading it throws. *)
Record ThumbnailService := mkThumbnailService {
  prompt_response : Result (option string);
  image_response : Result (option (list (option string)));
  image_seed : string       (* [Math.random ()] inside generateThumbnail *)
}.

(** The world seen by one run of the orchestrator: the response to the text
    request of chunk [i] (its [text] property, absent or empty as [None]),
    and, for draft [j] of chunk [i], the thumbnail service, the value
    [Math.random ()] prints as, and the clock when the post is assembled. *)
Record World := mkWorld {
  textService : nat → Result (option ResponseText);
  thumbnailService : nat → nat → ThumbnailService;
  Math_random : nat → nat → string;
  Date_now : nat → nat → Z
}.

(** [generatePostsBulk] (lines 111-148), from the response to its request on (the prompt
    it builds from topic, style and count is left to the world).  In the
    result [None] is [undefined]. *)
Definition generatePostsBulk (response : Result (option ResponseText))
    : Result (option (list Draft)) :=
  match response with
  | Throw e => Throw e
  | Return text =>
      (* JSON.parse (response.text || "{}") inside try/catch *)
      match default (Parses (JsonValue None)) text with
      | Unparsable => Return (Some [])
      | Parses JsonNull => Return (Some [])      (* null.posts throws *)
      | Parses (JsonValue ps) => Return ps       (* data.posts *)
      end
  end.

Definition picsum (seed : string) : string :=
  "https://picsum.photos/seed/" +:+ seed +:+ "/800/450".

(** [generateThumbnail] (lines 150-179): the prompt is the custom one when
    that is a non-empty string, else the one the prompt request returns
    (or a fixed default); the reference is the first inline image of the
    image response, else a placeholder with a random seed; a response
    without parts makes the loop over them throw. *)
Definition generateThumbnail (svc : ThumbnailService) (postContent : string)
    (customPrompt : option string) : Result (string * string) :=
  let prompt :=
    match customPrompt with
    | Some (String c r) => Return (String c r)
    | _ =>
        match prompt_response svc with
        | Throw e => Throw e
        | Return text =>
            Return (or_else text "Professional workspace with AI elements")
        end
    end in
  match prompt with
  | Throw e => Throw e
  | Return prompt =>
      match image_response svc with
      | Throw e => Throw e
      | Return None => Throw TypeError
      | Return (Some parts) =>
          match omap (fun part => part) parts with
          | data :: _ => Return ("data:image/png;base64," +:+ data, prompt)
          | [] => Return (picsum (image_seed svc), prompt)
          end
      end
  end.

(** ** The bulk-generation orchestrator (lines 264-316) *)

Definition chunkSize : Z := 5.

Definition iterations_of (totalToGen : Z) : Z :=
  Math_ceil (PrimFloat.div (of_Z totalToGen) (of_Z chunkSize)).

Definition currentBatchSize (totalToGen : Z) (i : nat) : Z :=
  Z.min chunkSize (totalToGen - Z.of_nat i * chunkSize).

(** [Math.round (((i + 1) / iterations) * 100)] *)
Definition progress_after (iterations : Z) (i : nat) : Z :=
  Math_round
    (PrimFloat.mul
       (PrimFloat.div (of_Z (Z.of_nat i + 1)) (of_Z iterations))
       (of_Z 100)).

(** The body of the inner loop: the post assembled for draft [j] of chunk
    [i]. *)
Definition newPost (w : World) (genConfig : GenConfig) (i j : nat) (p : Draft)
    : Post * list Event :=
  let fallback := picsum (Math_random w i j) in
  let stamp := Date_now w i j - (Z.of_nat i * chunkSize + Z.of_nat j) in
  match generateThumbnail (thumbnailService w i j) (d_content p) None with
  | Return (url, prompt) =>
      (mkPost (d_title p) (d_content p) url (Some prompt)
         (gen_style genConfig) (d_virality_score p) stamp,
       [ThumbnailRequest (d_content p)])
  | Throw _ =>
      (mkPost (d_title p) (d_content p) fallback (Some EmptyString)
         (gen_style genConfig) (d_virality_score p) stamp,
       [ThumbnailRequest (d_content p);
        ConsoleWarn "Thumbnail generation failed for post, using fallback"])
  end.

Fixpoint newPosts (w : World) (genConfig : GenConfig) (i j : nat)
    (generated : list Draft) : list Post * list Event :=
  match generated with
  | [] => ([], [])
  | p :: rest =>
      let '(q, e1) := newPost w genConfig i j p in
      let '(qs, e2) := newPosts w genConfig i (S j) rest in
      (q :: qs, e1 ++ e2)
  end.

(** The outer loop from index [i], with [todo] iterations left.  Reading
    [generated.length] throws when [generatePostsBulk] returned
    [undefined]. *)
Fixpoint bulkLoop (w : World) (genConfig : GenConfig) (iterations : Z)
    (todo i : nat) (t : Dexie.Table Post)
    : Dexie.Table Post * list Event * Result unit :=
  match todo with
  | O => (t, [], Return tt)
  | S todo' =>
      let request := TextRequest (currentBatchSize (count genConfig) i) in
      match generatePostsBulk (textService w i) with
      | Throw e => (t, [request], Throw e)
      | Return None => (t, [request], Throw TypeError)
      | Return (Some generated) =>
          let '(ps, e1) := newPosts w genConfig i 0 generated in
          let '(t', e2, r) :=
            bulkLoop w genConfig iterations todo' (S i)
              (Dexie.bulkAdd ps t) in
          (t',
           request :: e1 ++ SetProgress (progress_after iterations i) :: e2,
           r)
      end
  end.

Definition handleBulkGenerate (w : World) (genConfig : GenConfig) (db : DB)
    : DB * list Event :=
  match topic genConfig with
  | EmptyString => (db, [])
  | String _ _ =>
      let iterations := iterations_of (count genConfig) in
      let '(t, es, r) :=
        bulkLoop w genConfig iterations (Z.to_nat iterations) 0 (posts db) in
      let ending :=
        match r with
        | Return _ =>
            [SetShowGenModal false;
             SetGenConfig
               (mkGenConfig EmptyString (gen_style genConfig) (count genConfig))]
        | Throw _ =>
            [ConsoleError "Generation failed";
             Alert
               "Generation encountered an error. Some posts may have been saved."]
        end in
      (mkDB t (reminders db),
       [SetIsGenerating true; SetProgress 0] ++ es ++ ending ++
       [SetIsGenerating false; SetProgress 0])
  end.

(** ** Seeding, editing and deleting posts *)

(** The seeding effect (lines 237-262).  The effect first awaits the count
    of the posts table and then, if that count was 0, awaits the write of
    the two posts; the two clock readings are those of the two
    [Date.now ()] calls. *)
Definition seedPosts (now1 now2 : Z) : list Post :=
  [mkPost "The 2026 'Digital CEO' Manifesto"
     "2025 is almost in the rearview mirror. Some of you spent this year 'getting ready.' You 'planned' to start. You 'intended' to learn AI. You 'hoped' to find clients. Hope is not a business strategy..."
     "https://picsum.photos/seed/ceo/800/450" None "ceo" 95 (now1 - 10000);
   mkPost "The Death of the 'Commodity' Freelancer"
     "In 2025, you could still survive by being 'the guy who does everything.' Web design? You do it. Graphics? You do it. Data entry? You do it. But in 2026, the 'Generalist' is going to starve..."
     "https://picsum.photos/seed/specialist/800/450" None "ceo" 92
     (now2 - 20000)].

(** The second step, on the store as it is by then, given the count the
    first step read. *)
Definition seedWrite (counted : nat) (now1 now2 : Z) (db : DB) : DB :=
  if decide (counted = 0%nat)
  then with_posts (Dexie.bulkAdd (seedPosts now1 now2)) db
  else db.

(** A run of the effect during which nothing else writes to the store. *)
Definition seed (now1 now2 : Z) (db : DB) : DB :=
  seedWrite (Dexie.count (posts db)) now1 now2 db.

(** [handleDelete (id)] (lines 318-322): [answer] is what the user answers to the
    confirmation dialog, which opens only for a truthy [id]. *)
Definition handleDelete (answer : bool) (selectedPost : option (N * Post))
    (id : option N) (db : DB) : DB * list Event * Result unit :=
  match id with
  | None | Some 0%N => (db, [], Return tt)
  | Some k =>
      if answer then
        (with_posts (Dexie.delete k) db,
         Confirm "Delete this insight?" ::
         match selectedPost with
         | Some (k', _) =>
             if decide (k' = k) then [SetSelectedPost None] else []
         | None => []
         end,
         Return tt)
      else (db, [Confirm "Delete this insight?"], Return tt)
  end.

(** [handleSaveEdit] (lines 366-382): the [catch] clause only logs, and the modelled
    [update] does not reject. *)
Definition handleSaveEdit (selectedPost : option (N * Post))
    (editedTitle editedContent : string) (db : DB)
    : DB * list Event * Result unit :=
  match selectedPost with
  | None | Some (0%N, _) => (db, [], Return tt)
  | Some (k, p) =>
      (with_posts (Dexie.update k (set_text editedTitle editedContent)) db,
       [SetSelectedPost (Some (k, set_text editedTitle editedContent p));
        SetIsEditing false],
       Return tt)
  end.

(** [handleRegenerateThumbnail (post)] (lines 342-364) *)
Definition handleRegenerateThumbnail (svc : ThumbnailService)
    (selectedPost : option (N * Post)) (customThumbPrompt : string)
    (post : N * Post) (db : DB) : DB * list Event * Result unit :=
  match post.1 with
  | 0%N => (db, [], Return tt)
  | k =>
      match generateThumbnail svc (content post.2) (Some customThumbPrompt) with
      | Return (url, prompt) =>
          (with_posts (Dexie.update k (set_thumbnail url prompt)) db,
           [SetIsRegeneratingThumb true] ++
           match selectedPost with
           | Some (k', p') =>
               if decide (k' = k)
               then [SetSelectedPost (Some (k', set_thumbnail url prompt p'))]
               else []
           | None => []
           end ++
           [SetCustomThumbPrompt EmptyString; SetIsRegeneratingThumb false],
           Return tt)
      | Throw _ =>
          (db,
           [SetIsRegeneratingThumb true;
            ConsoleError "Failed to regenerate thumbnail";
            SetIsRegeneratingThumb false],
           Return tt)
      end
  end.

(** ** Reminders *)

(** [handleSetReminder (post)] (lines 434-448): [reminderTime] is the time
    the input field parses to, [None] when the field is empty or is not a
    date.  The permission request the handler awaits first does not touch
    the store. *)
Definition handleSetReminder (reminderTime : option Z) (post : N * Post)
    (db : DB) : DB * list Event * Result unit :=
  match reminderTime with
  | None => (db, [], Return tt)
  | Some t =>
      (with_reminders
         (Dexie.add (mkReminder post.1 (title post.2) t false)) db,
       [SetReminderTime EmptyString; Alert "Reminder set successfully!"],
       Return tt)
  end.

(** The Notification API as the page finds it: whether the global
    [Notification] exists at all (the test [requestNotificationPermission]
    makes before touching it) and whether permission is granted. *)
Record NotificationApi := mkNotificationApi {
  in_window : bool;
  granted : bool
}.

(** [sendNotification] (lines 93-99) reads [Notification.permission]
    without that test. *)
Definition sendNotification (api : NotificationApi) (ntitle body : string)
    : Result Event :=
  if in_window api then
    if granted api then Return (Notification ntitle body)
    else Return (Alert ("REMINDER: " +:+ ntitle +:+ "
" +:+ body))
  else Throw ReferenceError.

(** [db.reminders.where("time").belowOrEqual(now).and(r => !r.notified)] *)
Definition dueReminders (now : Z) (t : Dexie.Table Reminder)
    : list (N * Reminder) :=
  filter (fun r => notified r.2 = false)
    (filter (fun r => time r.2 ≤ now) (Dexie.orderBy time t)).

(** The loop of the reminder checker (lines 218-234).  The log pairs every delivery with
    the id of the reminder it was made for. *)
Fixpoint notifyAll (api : NotificationApi) (due : list (N * Reminder))
    (t : Dexie.Table Reminder)
    : Dexie.Table Reminder * list (N * Event) * Result unit :=
  match due with
  | [] => (t, [], Return tt)
  | r :: rest =>
      match
        sendNotification api "Post Reminder"
          ("Time to share: " +:+ postTitle r.2)
      with
      | Throw e => (t, [], Throw e)
      | Return ev =>
          let '(t', log, res) :=
            notifyAll api rest (Dexie.update r.1 (set_notified true) t) in
          (t', (r.1, ev) :: log, res)
      end
  end.

(** One run of the interval callback, at clock reading [now]. *)
Definition tick (api : NotificationApi) (now : Z) (db : DB)
    : DB * list (N * Event) * Result unit :=
  let '(t, log, res) :=
    notifyAll api (dueReminders now (reminders db)) (reminders db) in
  (mkDB (posts db) t, log, res).

(** Successive runs of the callback; a run that throws does not stop the
    interval. *)
Fixpoint ticks (api : NotificationApi) (nows : list Z) (db : DB)
    : DB * list (N * Event) :=
  match nows with
  | [] => (db, [])
  | now :: rest =>
      let '(db1, log1, _) := tick api now db in
      let '(db2, log2) := ticks api rest db1 in
      (db2, log1 ++ log2)
  end.

(** ** Everything that writes to the store *)

Inductive Action :=
  | Seed (now1 now2 : Z)
  | BulkGenerate (w : World) (genConfig : GenConfig)
  | Delete (answer : bool) (selectedPost : option (N * Post)) (id : option N)
  | SaveEdit (selectedPost : option (N * Post))
      (editedTitle editedContent : string)
  | RegenerateThumbnail (svc : ThumbnailService)
      (selectedPost : option (N * Post)) (customThumbPrompt : string)
      (post : N * Post)
  | SetReminder (reminderTime : option Z) (post : N * Post)
  | Tick (api : NotificationApi) (now : Z).

Definition perform (a : Action) (db : DB) : DB :=
  match a with
  | Seed now1 now2 => seed now1 now2 db
  | BulkGenerate w genConfig => (handleBulkGenerate w genConfig db).1
  | Delete answer sel id => (handleDelete answer sel id db).1.1
  | SaveEdit sel t c => (handleSaveEdit sel t c db).1.1
  | RegenerateThumbnail svc sel prompt post =>
      (handleRegenerateThumbnail svc sel prompt post db).1.1
  | SetReminder t post => (handleSetReminder t post db).1.1
  | Tick api now => (tick api now db).1.1
  end.

Definition run (actions : list Action) (db : DB) : DB :=
  fold_left (fun acc a => perform a acc) actions db.

Definition emptyDB : DB := mkDB Dexie.empty Dexie.empty.

(** The liveQuery behind the post list:
    [db.posts.orderBy("created_at").reverse().toArray()] *)
Definition livePosts (db : DB) : list (N * Post) :=
  reverse (Dexie.orderBy created_at (posts db)).

(** ** Reading the event log *)

Definition textRequests (es : list Event) : list Z :=
  omap (fun e => match e with TextRequest n => Some n | _ => None end) es.

Definition progressReports (es : list Event) : list Z :=
  omap (fun e => match e with SetProgress p => Some p | _ => None end) es.

Definition alerts (es : list Event) : list string :=
  omap (fun e => match e with Alert m => Some m | _ => None end) es.

(** ** What the properties speak of *)

(** Integer ceiling of [a / b] and rounding of [a / b] to the nearest
    integer, a tie going up, both for [b > 0] and in exact arithmetic. *)
Definition ceil_div (a b : Z) : Z := (a + b - 1) / b.

Definition round_div (a b : Z) : Z := (2 * a + b) / (2 * b).

(** The integers [1 .. n]. *)
Definition upto (n : nat) : list Z := map Z.of_nat (seq 1 n).

Fixpoint nondecreasingb (l : list Z) : bool :=
  match l with
  | x :: (y :: _) as r => (x <=? y) && nondecreasingb r
  | _ => true
  end.

(** The progress values of a run of [n] iterations, and what is checked of
    them. *)
Definition progressValues (n : Z) : list Z :=
  map (progress_after n) (seq 0 (Z.to_nat n)).

Definition progress_near (n : Z) (i : nat) : bool :=
  let exact := round_div (100 * (Z.of_nat i + 1)) n in
  (exact - 1 <=? progress_after n i) && (progress_after n i <=? exact).

Definition progress_checks (n : Z) : bool :=
  nondecreasingb (progressValues n)
  && bool_decide (last (progressValues n) = Some 100)
  && forallb (progress_near n) (seq 0 (Z.to_nat n)).

(** The deliveries the log records for reminder [rk]. *)
Definition deliveries (rk : N) (log : list (N * Event)) : list Event :=
  (filter (fun e => e.1 = rk) log).*2.

(** The text of the notification for a reminder. *)
Definition notice (r : Reminder) : string :=
  "Time to share: " +:+ postTitle r.

(** The posts assembled for chunk [k] from the drafts [ds]. *)
Definition chunkPosts (w : World) (genConfig : GenConfig) (ds : list Draft)
    (k : nat) : list Post :=
  (newPosts w genConfig k 0 ds).1.

Definition score_in_range (s : Z) : Prop := 0 ≤ s ≤ 100.

Definition scores_ok (db : DB) : Prop :=
  map_Forall (fun _ p => score_in_range (virality_score p))
    (Dexie.rows (posts db)).

(** The drafts an action receives from the text service all carry a score
    between 0 and 100. *)
Definition drafts_in_range (a : Action) : Prop :=
  match a with
  | BulkGenerate w _ =>
      ∀ i ds, generatePostsBulk (textService w i) = Return (Some ds) →
              Forall (fun d => score_in_range (d_virality_score d)) ds
  | _ => True
  end.

(** The drafts the text request of chunk [k] yields, if it yields any. *)
Definition draftsOf (w : World) (k : nat) : list Draft :=
  match generatePostsBulk (textService w k) with
  | Return (Some ds) => ds
  | _ => []
  end.

(** The number of drafts of the chunks before chunk [i]. *)
Definition offset (drafts : nat → list Draft) (i : nat) : nat :=
  length (concat (map drafts (seq 0 i))).

(** ** Worlds and stores used to run the model *)

(** A thumbnail service that answers with one inline image. *)
Definition imageOk : ThumbnailService :=
  mkThumbnailService (Return (Some "a desk")) (Return (Some [Some "AAAA"]))
    "0.5".

(** A thumbnail service whose image request is rejected. *)
Definition imageDown : ThumbnailService :=
  mkThumbnailService (Return (Some "a desk")) (Throw RequestError) "0.5".

Definition draftA : Draft := mkDraft "A" "first" 80.
Definition draftB : Draft := mkDraft "B" "second" 70.

Definition config (n : Z) : GenConfig := mkGenConfig "pricing" "ceo" n.

(** Every text request returns [ds]; every image is generated; the clock
    stands still. *)
Definition steadyWorld (ds : list Draft) : World :=
  mkWorld (fun _ => Return (Some (Parses (JsonValue (Some ds)))))
    (fun _ _ => imageOk) (fun _ _ => "0.25") (fun _ _ => 1000).

(** The text request of chunk 0 returns one draft; every later one is
    rejected. *)
Definition outageWorld : World :=
  mkWorld
    (fun i =>
       match i with
       | O => Return (Some (Parses (JsonValue (Some [draftA]))))
       | S _ => Throw RequestError
       end)
    (fun _ _ => imageOk) (fun _ _ => "0.25") (fun _ _ => 1000).

(** The text service returns one draft scored 150. *)
Definition hypedWorld : World :=
  steadyWorld [mkDraft "C" "third" 150].

(** Both drafts of the one chunk lose their thumbnail; [Math.random ()]
    gives 0.25 for the first and 0.75 for the second. *)
Definition noImagesWorld : World :=
  mkWorld (fun _ => Return (Some (Parses (JsonValue (Some [draftA; draftB])))))
    (fun _ _ => imageDown)
    (fun _ j => match j with O => "0.25" | S _ => "0.75" end)
    (fun _ _ => 1000).

(** Every text response comes back without text. *)
Definition blankWorld : World :=
  mkWorld (fun _ => Return None) (fun _ _ => imageOk) (fun _ _ => "0.25")
    (fun _ _ => 1000).

(** Every text response is text that is not JSON. *)
Definition garbledWorld : World :=
  mkWorld (fun _ => Return (Some Unparsable)) (fun _ _ => imageOk)
    (fun _ _ => "0.25") (fun _ _ => 1000).

(** The clock advances by two seconds while a thumbnail is generated. *)
Definition tickingWorld : World :=
  mkWorld (fun _ => Return (Some (Parses (JsonValue (Some [draftA; draftB])))))
    (fun _ _ => imageOk) (fun _ _ => "0.25")
    (fun _ j => 1000 + 2000 * Z.of_nat j).

(** A store with the two seed posts and one reminder for post 1. *)
Definition seededDB : DB :=
  (handleSetReminder (Some 40000)
     (1%N, mkPost "The 2026 'Digital CEO' Manifesto" "c" "u" None "ceo" 95 0)
     (seed 50000 50000 emptyDB)).1.1.

(** A page without the Notification API, and one with it where permission
    was not granted. *)
Definition noNotificationApi : NotificationApi := mkNotificationApi false false.
Definition notGranted : NotificationApi := mkNotificationApi true false.

(** ** The post list and its filters (lines 508-516) *)

(** [s.includes (t)]: [t] occurs in [s] as a substring. *)
Fixpoint includes (s t : string) : bool :=
  String.prefix t s
  || match s with
     | EmptyString => false
     | String _ s' => includes s' t
     end.

(** The predicate of [filteredPosts] for one post.  [toLowerCase] is the
    string method of that name. *)
Definition matchesFilters (toLowerCase : string → string)
    (searchQuery filterStyle : string) (minVirality : Z) (p : Post) : bool :=
  let matchesSearch :=
    includes (toLowerCase (title p)) (toLowerCase searchQuery)
    || includes (toLowerCase (content p)) (toLowerCase searchQuery) in
  let matchesStyle :=
    bool_decide (filterStyle = "all") || bool_decide (style p = filterStyle) in
  let matchesVirality := minVirality <=? virality_score p in
  matchesSearch && matchesStyle && matchesVirality.

Definition filteredPosts (toLowerCase : string → string)
    (posts : list (N * Post)) (searchQuery filterStyle : string)
    (minVirality : Z) : list (N * Post) :=
  List.filter
    (fun p => matchesFilters toLowerCase searchQuery filterStyle minVirality p.2)
    posts.

(** The count the number field of the generation dialog stores (line 897):
    [Math.min (1000, Math.max (1, parseInt (value) || 1))], where [parsed]
    is what [parseInt] makes of the field, [None] for [NaN]. *)
Definition countInput (parsed : option Z) : Z :=
  let orOne := match parsed with
               | None | Some 0 => 1
               | Some z => z
               end in
  Z.min 1000 (Z.max 1 orOne).

(** ** The CSV export (lines 324-333) *)

(** The double quote character. *)
Definition quote : Ascii.ascii := Ascii.ascii_of_nat 34.

(** The [replace] call of the export: every double quote is written
    twice. *)
Fixpoint doubleQuotes (s : string) : string :=
  match s with
  | EmptyString => EmptyString
  | String c r =>
      if decide (c = quote) then String quote (String quote (doubleQuotes r))
      else String c (doubleQuotes r)
  end.

(** The quoted field written for a title or a content. *)
Definition csvField (s : string) : string :=
  String quote (doubleQuotes s +:+ String quote EmptyString).

(** [parts.join (sep)] *)
Fixpoint join (sep : string) (parts : list string) : string :=
  match parts with
  | [] => EmptyString
  | [x] => x
  | x :: rest => x +:+ sep +:+ join sep rest
  end.

(** The text of the export.  [numberToString] prints a number as [join]
    does and [toISOString] is [new Date (t).toISOString ()]. *)
Definition csvContent (numberToString toISOString : Z → string)
    (posts : list (N * Post)) : string :=
  let headers :=
    ["Title"; "Content"; "Style"; "Virality Score"; "Created At"] in
  let rows :=
    map (fun p =>
           [csvField (title p.2); csvField (content p.2); style p.2;
            numberToString (virality_score p.2);
            toISOString (created_at p.2)])
      posts in
  join "
" (join "," headers :: map (join ",") rows).

(** Reading a quoted field back, the way a CSV reader does: after the
    opening quote, a doubled quote stands for a quote and a single one
    must end the field. *)
Fixpoint readQuoted (s : string) : option string :=
  match s with
  | EmptyString => None
  | String c r =>
      if decide (c = quote) then
        match r with
        | EmptyString => Some EmptyString
        | String c' r' =>
            if decide (c' = quote) then String quote <$> readQuoted r'
            else None
        end
      else String c <$> readQuoted r
  end.

Definition readField (s : string) : option string :=
  match s with
  | EmptyString => None
  | String c r => if decide (c = quote) then readQuoted r else None
  end.

(** ** Asking for permission to notify (lines 86-91) *)

Inductive Permission := PermissionDefault | PermissionGranted | PermissionDenied.

(** The global [Notification]: whether it exists, and its [permission]. *)
Record NotificationGlobal := mkNotificationGlobal {
  exists_in_window : bool;
  permission : Permission
}.

Definition isGranted (p : Permission) : bool :=
  match p with PermissionGranted => true | _ => false end.

(** [requestNotificationPermission]: its result, and the global after it.
    [answer] is what [Notification.requestPermission ()] resolves to, which
    the browser then also reports as the permission. *)
Definition requestNotificationPermission (g : NotificationGlobal)
    (answer : Permission) : bool * NotificationGlobal :=
  if exists_in_window g then
    if isGranted (permission g) then (true, g)
    else (isGranted answer, mkNotificationGlobal true answer)
  else (false, g).

(** What [sendNotification] finds of that global. *)
Definition apiOf (g : NotificationGlobal) : NotificationApi :=
  mkNotificationApi (exists_in_window g) (isGranted (permission g)).

(** ** Stores as the handlers build them *)

(** Every row of the table sits under a key the counter has passed, and
    no key is 0. *)
Definition keys_issued {A} (t : Dexie.Table A) : Prop :=
  (1 ≤ Dexie.next_key t)%N
  ∧ ∀ k, is_Some (Dexie.rows t !! k) → (1 ≤ k < Dexie.next_key t)%N.

Definition wellKeyed (db : DB) : Prop :=
  keys_issued (posts db) ∧ keys_issued (reminders db).

(** What [sendNotification] shows for a reminder when it returns. *)
Definition reminderEvent (api : NotificationApi) (r : Reminder) : Event :=
  if granted api then Notification "Post Reminder" (notice r)
  else Alert ("REMINDER: " +:+ "Post Reminder" +:+ "
" +:+ notice r).

(** Lower-casing of the letters A-Z, used to run the filters. *)
Fixpoint asciiLower (s : string) : string :=
  match s with
  | EmptyString => EmptyString
  | String c r =>
      let n := Ascii.nat_of_ascii c in
      String
        (if ((65 <=? n) && (n <=? 90))%nat then Ascii.ascii_of_nat (n + 32)
         else c)
        (asciiLower r)
  end.

(** Every text request is answered with seven drafts, whatever was asked
    for. *)
Definition generousWorld : World :=
  steadyWorld [draftA; draftB; draftA; draftB; draftA; draftB; draftA].

(** The two seed posts as [seededDB] holds them. *)
Definition firstSeed : Post :=
  mkPost "The 2026 'Digital CEO' Manifesto"
    "2025 is almost in the rearview mirror. Some of you spent this year 'getting ready.' You 'planned' to start. You 'intended' to learn AI. You 'hoped' to find clients. Hope is not a business strategy..."
    "https://picsum.photos/seed/ceo/800/450" None "ceo" 95 40000.

Definition secondSeed : Post :=
  mkPost "The Death of the 'Commodity' Freelancer"
    "In 2025, you could still survive by being 'the guy who does everything.' Web design? You do it. Graphics? You do it. Data entry? You do it. But in 2026, the 'Generalist' is going to starve..."
    "https://picsum.photos/seed/specialist/800/450" None "ceo" 92 30000.

(** [seededDB] with a second reminder, for post 2, due before the
    first. *)
Definition twoRemindersDB : DB :=
  (handleSetReminder (Some 20000) (2%N, secondSeed) seededDB).1.1.

(** * Properties *)

Section Logs.

Lemma textRequests_app (a b : list Event) :
  textRequests (a ++ b) = textRequests a ++ textRequests b.
Proof. apply omap_app. Qed.

Lemma textRequests_cons (e : Event) (es : list Event) :
  textRequests (e :: es)
  = match e with
    | TextRequest n => n :: textRequests es
    | _ => textRequests es
    end.
Proof. by destruct e. Qed.

Lemma progressReports_app (a b : list Event) :
  progressReports (a ++ b) = progressReports a ++ progressReports b.
Proof. apply omap_app. Qed.

Lemma progressReports_cons (e : Event) (es : list Event) :
  progressReports (e :: es)
  = match e with
    | SetProgress p => p :: progressReports es
    | _ => progressReports es
    end.
Proof. by destruct e. Qed.

Lemma alerts_app (a b : list Event) :
  alerts (a ++ b) = alerts a ++ alerts b.
Proof. apply omap_app. Qed.

Lemma alerts_cons (e : Event) (es : list Event) :
  alerts (e :: es)
  = match e with
    | Alert m => m :: alerts es
    | _ => alerts es
    end.
Proof. by destruct e. Qed.

End Logs.

Global Arguments textRequests : simpl never.
Global Arguments progressReports : simpl never.
Global Arguments alerts : simpl never.

Ltac log_norm :=
  repeat (rewrite ?textRequests_cons, ?textRequests_app,
            ?progressReports_cons, ?progressReports_app,
            ?alerts_cons, ?alerts_app; simpl).

Section Numerics.

Lemma upto_spec (P : Z → bool) (n : nat) :
  forallb P (upto n) = true → ∀ z, 1 ≤ z ≤ Z.of_nat n → P z = true.
Proof.
  intros H z Hz. rewrite forallb_forall in H. apply H.
  unfold upto. apply in_map_iff. exists (Z.to_nat z). split; [lia|].
  apply in_seq. lia.
Qed.

Lemma iterations_of_exact (c : Z) :
  1 ≤ c ≤ 1000 → iterations_of c = ceil_div c chunkSize.
Proof.
  intros Hc.
  assert (H : forallb (fun z => iterations_of z =? ceil_div z chunkSize)
                (upto 1000) = true) by (vm_compute; reflexivity).
  apply Z.eqb_eq. exact (upto_spec _ _ H c Hc).
Qed.

Lemma progress_checked (n : Z) : 1 ≤ n ≤ 200 → progress_checks n = true.
Proof.
  intros Hn.
  assert (H : forallb progress_checks (upto 200) = true)
    by (vm_compute; reflexivity).
  exact (upto_spec _ _ H n Hn).
Qed.

Lemma nondecreasingb_Sorted (l : list Z) :
  nondecreasingb l = true → Sorted Z.le l.
Proof.
  induction l as [|x [|y r] IH]; intros H.
  - constructor.
  - repeat constructor.
  - simpl in H. apply andb_prop in H as [Hxy Hr].
    constructor; [apply IH, Hr|]. constructor. lia.
Qed.

End Numerics.

Section Store.

Context {A : Type}.
Implicit Types (t : Dexie.Table A) (xs : list A).

Lemma bulkAdd_app xs ys t :
  Dexie.bulkAdd (xs ++ ys) t = Dexie.bulkAdd ys (Dexie.bulkAdd xs t).
Proof. unfold Dexie.bulkAdd. apply fold_left_app. Qed.

Lemma bulkAdd_cons x xs t :
  Dexie.bulkAdd (x :: xs) t = Dexie.bulkAdd xs (Dexie.add x t).
Proof. done. Qed.

Lemma next_key_bulkAdd xs t :
  Dexie.next_key (Dexie.bulkAdd xs t)
  = (Dexie.next_key t + N.of_nat (length xs))%N.
Proof.
  revert t. induction xs as [|x xs IH]; intros t.
  - change (Dexie.bulkAdd [] t) with t. simpl. lia.
  - rewrite bulkAdd_cons, IH. simpl. lia.
Qed.

(** Rows below the key counter are not touched by an insertion. *)
Lemma rows_bulkAdd_old xs t (k : N) :
  (k < Dexie.next_key t)%N →
  Dexie.rows (Dexie.bulkAdd xs t) !! k = Dexie.rows t !! k.
Proof.
  revert t. induction xs as [|x xs IH]; intros t Hk; [done|].
  rewrite bulkAdd_cons, IH by (simpl; lia).
  simpl. apply lookup_insert_ne. lia.
Qed.

(** Nor are the rows beyond the keys it gives out. *)
Lemma rows_bulkAdd_beyond xs t (k : N) :
  (Dexie.next_key t + N.of_nat (length xs) ≤ k)%N →
  Dexie.rows (Dexie.bulkAdd xs t) !! k = Dexie.rows t !! k.
Proof.
  revert t. induction xs as [|x xs IH]; intros t Hk; [done|].
  simpl in Hk. rewrite bulkAdd_cons, IH by (simpl; lia).
  simpl. apply lookup_insert_ne. lia.
Qed.

(** The [j]-th inserted record is stored under the [j]-th fresh key. *)
Lemma rows_bulkAdd_new xs t (j : nat) (x : A) :
  xs !! j = Some x →
  Dexie.rows (Dexie.bulkAdd xs t) !! (Dexie.next_key t + N.of_nat j)%N
  = Some x.
Proof.
  revert t j. induction xs as [|y xs IH]; intros t j Hj; [done|].
  rewrite bulkAdd_cons. destruct j as [|j]; simpl in Hj.
  - injection Hj as ->. rewrite rows_bulkAdd_old by (simpl; lia).
    simpl. rewrite N.add_0_r. apply lookup_insert_eq.
  - rewrite <- (IH (Dexie.add y t) j Hj). simpl. f_equal. lia.
Qed.

Lemma rows_bulkAdd_Forall (P : N → A → Prop) xs t :
  map_Forall P (Dexie.rows t) →
  Forall (fun x => ∀ k, P k x) xs →
  map_Forall P (Dexie.rows (Dexie.bulkAdd xs t)).
Proof.
  revert t. induction xs as [|x xs IH]; intros t Ht Hxs; [done|].
  inversion Hxs; subst. rewrite bulkAdd_cons. apply IH; [|done].
  simpl. apply map_Forall_insert_2; auto.
Qed.

End Store.

Section Orchestrator.

Variable w : World.
Variable genConfig : GenConfig.

Lemma newPosts_length (i j : nat) (ds : list Draft) :
  length (newPosts w genConfig i j ds).1 = length ds.
Proof.
  revert j. induction ds as [|d ds IH]; intros j; simpl; [done|].
  destruct (newPost w genConfig i j d) as [q e1].
  specialize (IH (S j)).
  destruct (newPosts w genConfig i (S j) ds) as [qs e2]. simpl in *. lia.
Qed.

Lemma newPosts_lookup (i j k : nat) (ds : list Draft) :
  (newPosts w genConfig i j ds).1 !! k
  = (fun d => (newPost w genConfig i (j + k) d).1) <$> ds !! k.
Proof.
  revert j k. induction ds as [|d ds IH]; intros j k; simpl; [done|].
  destruct (newPost w genConfig i j d) as [q e1] eqn:Eq.
  specialize (IH (S j)).
  destruct (newPosts w genConfig i (S j) ds) as [qs e2]. simpl in *.
  destruct k as [|k]; simpl.
  - by rewrite Nat.add_0_r, Eq.
  - rewrite IH. replace (j + S k)%nat with (S (j + k)) by lia. done.
Qed.

Lemma newPost_quiet (i j : nat) (d : Draft) :
  let es := (newPost w genConfig i j d).2 in
  textRequests es = [] ∧ progressReports es = [] ∧ alerts es = [].
Proof.
  unfold newPost.
  destruct (generateThumbnail _ _ _) as [[url prompt]|e]; simpl; done.
Qed.

Lemma newPosts_quiet (i j : nat) (ds : list Draft) :
  let es := (newPosts w genConfig i j ds).2 in
  textRequests es = [] ∧ progressReports es = [] ∧ alerts es = [].
Proof.
  revert j. induction ds as [|d ds IH]; intros j; simpl; [done|].
  pose proof (newPost_quiet i j d) as Hq.
  destruct (newPost w genConfig i j d) as [q e1].
  specialize (IH (S j)).
  destruct (newPosts w genConfig i (S j) ds) as [qs e2]. simpl in *.
  log_norm.
  destruct Hq as (-> & -> & ->), IH as (-> & -> & ->). done.
Qed.

(** The loop when the text request of chunks [i .. i + good - 1] returns
    drafts and the loop either ends there or the next request yields no
    array of drafts. *)
Lemma bulkLoop_prefix (n : Z) (drafts : nat → list Draft) (good : nat) :
  ∀ (todo i : nat) (t : Dexie.Table Post),
    (good ≤ todo)%nat →
    (∀ k, (i ≤ k < i + good)%nat →
          generatePostsBulk (textService w k) = Return (Some (drafts k))) →
    (good = todo ∨
     ∀ ds, generatePostsBulk (textService w (i + good))
           ≠ Return (Some ds)) →
    let '(t', es, r) := bulkLoop w genConfig n todo i t in
    t' = Dexie.bulkAdd
           (concat (map (fun k => chunkPosts w genConfig (drafts k) k)
                      (seq i good))) t
    ∧ textRequests es
      = map (currentBatchSize (count genConfig))
          (seq i (if decide (good = todo) then good else S good))
    ∧ progressReports es = map (progress_after n) (seq i good)
    ∧ alerts es = []
    ∧ (good = todo → r = Return tt)
    ∧ (good ≠ todo → ∃ e, r = Throw e).
Proof.
  induction good as [|good IH]; intros todo i t Hle Hok Hend.
  - destruct todo as [|todo]; simpl.
    + repeat split; try done.
    + destruct Hend as [?|He]; [done|].
      rewrite Nat.add_0_r in He.
      destruct (generatePostsBulk (textService w i)) as [[ds|]|e];
        [by destruct (He ds)| |]; simpl; repeat split; try done;
        intros _; by eexists.
  - destruct todo as [|todo]; [lia|]. simpl.
    rewrite (Hok i) by lia.
    pose proof (newPosts_quiet i 0 (drafts i)) as Hq.
    unfold chunkPosts at 1.
    destruct (newPosts w genConfig i 0 (drafts i)) as [ps e1]. simpl in Hq.
    specialize (IH todo (S i) (Dexie.bulkAdd ps t)).
    destruct (bulkLoop w genConfig n todo (S i) (Dexie.bulkAdd ps t))
      as [[t' e2] r].
    destruct IH as (Ht & Hreq & Hprog & Hal & Hret & Hthrow).
    { lia. }
    { intros k Hk. apply Hok. lia. }
    { destruct Hend as [?|He]; [left; lia|right].
      replace (S i + good)%nat with (i + S good)%nat by lia. done. }
    destruct Hq as (Hq1 & Hq2 & Hq3). log_norm.
    rewrite Hq1, Hq2, Hq3, Hreq, Hprog, Hal, Ht. simpl.
    rewrite bulkAdd_app.
    repeat split; try done.
    + do 2 case_decide; try lia; done.
    + intros ?. apply Hret. lia.
    + intros ?. apply Hthrow. lia.
Qed.

End Orchestrator.

Section Chunking.

Lemma map_seq_const {A} (f : nat → A) (v : A) (len start : nat) :
  (∀ i, (start ≤ i < start + len)%nat → f i = v) →
  map f (seq start len) = replicate len v.
Proof.
  revert start. induction len as [|len IH]; intros start H; simpl; [done|].
  rewrite (H start) by lia. f_equal. apply IH. intros i Hi. apply H. lia.
Qed.

(** The sizes the loop asks for, for any positive count. *)
Lemma batch_sizes (c : Z) :
  1 ≤ c →
  map (currentBatchSize c) (seq 0 (Z.to_nat (ceil_div c chunkSize)))
  = replicate (Z.to_nat (c / 5)) 5
    ++ (if c mod 5 =? 0 then [] else [c mod 5]).
Proof.
  intros Hc. unfold ceil_div, chunkSize.
  pose proof (Z.div_mod c 5 ltac:(lia)) as Hdm.
  pose proof (Z.mod_pos_bound c 5 ltac:(lia)) as Hr.
  assert (Hq : 0 ≤ c / 5) by (apply Z.div_pos; lia).
  set (q := c / 5) in *. set (r := c mod 5) in *.
  assert (Hn : (c + 5 - 1) / 5 = q + (if r =? 0 then 0 else 1)).
  { destruct (Z.eqb_spec r 0).
    - symmetry. apply (Z.div_unique _ _ _ 4); lia.
    - symmetry. apply (Z.div_unique _ _ _ (r - 1)); lia. }
  rewrite Hn.
  replace (Z.to_nat (q + (if r =? 0 then 0 else 1)))
    with (Z.to_nat q + (if (r =? 0)%Z then 0 else 1))%nat
    by (destruct (r =? 0); lia).
  rewrite seq_app, map_app. f_equal.
  - apply map_seq_const. intros i Hi.
    unfold currentBatchSize, chunkSize. lia.
  - destruct (Z.eqb_spec r 0); simpl; [done|].
    unfold currentBatchSize, chunkSize. f_equal. lia.
Qed.

End Chunking.

Section BulkGenerate.

Variable w : World.
Variable genConfig : GenConfig.
Variable db : DB.

Hypothesis topic_given : topic genConfig ≠ EmptyString.

Let n := iterations_of (count genConfig).

(** A run in which the first [good] text requests return drafts and, when
    that is not all of them, the next one yields no array of drafts. *)
Lemma handleBulkGenerate_run (drafts : nat → list Draft) (good : nat) :
  (good ≤ Z.to_nat n)%nat →
  (∀ k, (k < good)%nat →
        generatePostsBulk (textService w k) = Return (Some (drafts k))) →
  (good = Z.to_nat n ∨
   ∀ ds, generatePostsBulk (textService w good) ≠ Return (Some ds)) →
  let '(db', es) := handleBulkGenerate w genConfig db in
  posts db'
  = Dexie.bulkAdd
      (concat (map (fun k => chunkPosts w genConfig (drafts k) k)
                 (seq 0 good)))
      (posts db)
  ∧ reminders db' = reminders db
  ∧ textRequests es
    = map (currentBatchSize (count genConfig))
        (seq 0 (if decide (good = Z.to_nat n) then good else S good))
  ∧ progressReports es = 0 :: map (progress_after n) (seq 0 good) ++ [0]
  ∧ alerts es
    = if decide (good = Z.to_nat n) then []
      else ["Generation encountered an error. Some posts may have been saved."].
Proof.
  intros Hle Hok Hend. unfold handleBulkGenerate.
  destruct (topic genConfig) as [|c s] eqn:Et; [done|]. fold n.
  pose proof (bulkLoop_prefix w genConfig n drafts good (Z.to_nat n) 0
                (posts db) Hle) as H.
  destruct (bulkLoop w genConfig n (Z.to_nat n) 0 (posts db))
    as [[t es] r].
  destruct H as (Ht & Hreq & Hprog & Hal & Hret & Hthrow).
  { intros k Hk. apply Hok. lia. }
  { exact Hend. }
  simpl. log_norm. rewrite Hreq, Hprog, Hal, Ht.
  case_decide as Hg.
  - rewrite (Hret Hg). log_norm. rewrite !app_nil_r. done.
  - destruct (Hthrow Hg) as [e ->]. log_norm. rewrite !app_nil_r. done.
Qed.

End BulkGenerate.

Section BulkGenerateClaims.

Lemma every_request_answered (w : World) (m : nat) :
  (∀ i, (i < m)%nat →
        ∃ ds, generatePostsBulk (textService w i) = Return (Some ds)) →
  ∀ k, (k < m)%nat →
       generatePostsBulk (textService w k) = Return (Some (draftsOf w k)).
Proof.
  intros H k Hk. destruct (H k Hk) as [ds Hds].
  unfold draftsOf. by rewrite Hds.
Qed.

(** C7.  For a requested count C in [1,1000], a run in which every text
    request returns drafts performs exactly ceil(C/5) iterations; the
    requested chunk sizes are 5, ..., 5 followed by C mod 5 when C is not
    a multiple of 5. *)
Theorem chunk_sizes (w : World) (genConfig : GenConfig) (db : DB) :
  topic genConfig ≠ EmptyString →
  1 ≤ count genConfig ≤ 1000 →
  (∀ i, (i < Z.to_nat (ceil_div (count genConfig) 5))%nat →
        ∃ ds, generatePostsBulk (textService w i) = Return (Some ds)) →
  let sizes := textRequests (handleBulkGenerate w genConfig db).2 in
  Z.of_nat (length sizes) = ceil_div (count genConfig) 5
  ∧ sizes
    = replicate (Z.to_nat (count genConfig / 5)) 5
      ++ (if count genConfig mod 5 =? 0 then []
          else [count genConfig mod 5]).
Proof.
  intros Ht Hc Hok.
  pose proof (iterations_of_exact _ Hc) as Hn. change chunkSize with 5 in Hn.
  pose proof (handleBulkGenerate_run w genConfig db Ht (draftsOf w)
                (Z.to_nat (iterations_of (count genConfig)))) as H.
  destruct (handleBulkGenerate w genConfig db) as [db' es].
  destruct H as (_ & _ & Hreq & _); [lia| |by left|].
  { rewrite Hn. by apply every_request_answered. }
  rewrite decide_True in Hreq by done. simpl. rewrite Hreq, Hn.
  split.
  - rewrite length_map, length_seq.
    assert (0 ≤ ceil_div (count genConfig) 5)
      by (apply Z.div_pos; lia).
    lia.
  - apply batch_sizes. lia.
Qed.

Lemma chunk_sizes_witness :
  textRequests (handleBulkGenerate (steadyWorld [draftA]) (config 12)
                  emptyDB).2
  = [5; 5; 2].
Proof.
  refine (proj2 (chunk_sizes (steadyWorld [draftA]) (config 12) emptyDB
                   _ _ _)).
  - discriminate.
  - unfold config; simpl; lia.
  - intros i _. by exists [draftA].
Defined.

(** C8 (amended).  In a run of n = ceil(C/5) iterations that all succeed
    (C in [1,1000]), the progress reported after chunk k is
    Math.round (((k / n) * 100)) evaluated on binary64 numbers; it is
    round (100 * k / n) or one less; the reported values are
    non-decreasing and the last one is exactly 100.  (The handler sets
    the progress to 0 before the first chunk and again when it
    finishes.) *)
Theorem progress_sequence (w : World) (genConfig : GenConfig) (db : DB) :
  topic genConfig ≠ EmptyString →
  1 ≤ count genConfig ≤ 1000 →
  (∀ i, (i < Z.to_nat (ceil_div (count genConfig) 5))%nat →
        ∃ ds, generatePostsBulk (textService w i) = Return (Some ds)) →
  let n := ceil_div (count genConfig) 5 in
  progressReports (handleBulkGenerate w genConfig db).2
  = 0 :: progressValues n ++ [0]
  ∧ Sorted Z.le (progressValues n)
  ∧ last (progressValues n) = Some 100
  ∧ ∀ i, (i < Z.to_nat n)%nat →
         round_div (100 * (Z.of_nat i + 1)) n - 1 ≤ progress_after n i
         ∧ progress_after n i ≤ round_div (100 * (Z.of_nat i + 1)) n.
Proof.
  intros Ht Hc Hok n.
  pose proof (iterations_of_exact _ Hc) as Hn. change chunkSize with 5 in Hn.
  fold n in Hn.
  assert (Hrange : 1 ≤ n ≤ 200).
  { unfold n, ceil_div. split.
    - apply Z.div_le_lower_bound; lia.
    - apply Z.lt_succ_r, Z.div_lt_upper_bound; lia. }
  pose proof (progress_checked n Hrange) as Hchk.
  unfold progress_checks in Hchk.
  apply andb_prop in Hchk as [Hchk Hnear].
  apply andb_prop in Hchk as [Hsorted Hlast].
  pose proof (handleBulkGenerate_run w genConfig db Ht (draftsOf w)
                (Z.to_nat (iterations_of (count genConfig)))) as H.
  destruct (handleBulkGenerate w genConfig db) as [db' es].
  destruct H as (_ & _ & _ & Hprog & _); [lia| |by left|].
  { rewrite Hn. by apply every_request_answered. }
  simpl. rewrite Hprog, Hn. repeat split.
  - by apply nondecreasingb_Sorted.
  - by apply bool_decide_eq_true_1 in Hlast.
  - rewrite forallb_forall in Hnear.
    assert (Hi : In i (seq 0 (Z.to_nat n))) by (apply in_seq; lia).
    apply Hnear, andb_prop in Hi as [Hi _]. lia.
  - rewrite forallb_forall in Hnear.
    assert (Hi : In i (seq 0 (Z.to_nat n))) by (apply in_seq; lia).
    apply Hnear, andb_prop in Hi as [_ Hi]. lia.
Qed.

Lemma progress_sequence_witness :
  progressReports (handleBulkGenerate (steadyWorld [draftA]) (config 12)
                     emptyDB).2
  = [0; 33; 67; 100; 0].
Proof.
  refine (proj1 (progress_sequence (steadyWorld [draftA]) (config 12)
                   emptyDB _ _ _)).
  - discriminate.
  - unfold config; simpl; lia.
  - intros i _. by exists [draftA].
Defined.

(** C8, as stated, fails: with 200 posts requested (40 iterations) the
    value reported after the 23rd chunk is 57, although
    round (100 * 23 / 40) = round (57.5) = 58. *)
Lemma progress_formula_counterexample :
  let es := (handleBulkGenerate (steadyWorld []) (config 200) emptyDB).2 in
  iterations_of 200 = 40
  ∧ progressReports es !! 23%nat = Some 57
  ∧ round_div (100 * 23) 40 = 58.
Proof. vm_compute. done. Qed.

End BulkGenerateClaims.

(** ** The range of the stored virality scores *)

Section Scores.

Let ok (_ : N) (p : Post) : Prop := score_in_range (virality_score p).

Lemma newPost_score (w : World) (g : GenConfig) (i j : nat) (d : Draft) :
  virality_score (newPost w g i j d).1 = d_virality_score d.
Proof.
  unfold newPost. by destruct (generateThumbnail _ _ _) as [[? ?]|?].
Qed.

Lemma newPosts_scores (w : World) (g : GenConfig) (i j : nat)
    (ds : list Draft) :
  Forall (fun d => score_in_range (d_virality_score d)) ds →
  Forall (fun p => ∀ k : N, ok k p) (newPosts w g i j ds).1.
Proof.
  intros H. revert j. induction H as [|d ds Hd _ IH]; intros j; simpl.
  - constructor.
  - pose proof (newPost_score w g i j d) as Hs.
    destruct (newPost w g i j d) as [q e1]. specialize (IH (S j)).
    destruct (newPosts w g i (S j) ds) as [qs e2]. simpl in *.
    constructor; [|done]. intros k. unfold ok. by rewrite Hs.
Qed.

Lemma bulkLoop_scores (w : World) (g : GenConfig) (n : Z) :
  drafts_in_range (BulkGenerate w g) →
  ∀ (todo i : nat) (t : Dexie.Table Post),
    map_Forall ok (Dexie.rows t) →
    map_Forall ok (Dexie.rows (bulkLoop w g n todo i t).1.1).
Proof.
  intros Hw. induction todo as [|todo IH]; intros i t Ht; simpl; [done|].
  destruct (generatePostsBulk (textService w i)) as [[ds|]|e] eqn:Eg;
    simpl; try done.
  pose proof (newPosts_scores w g i 0 ds (Hw i ds Eg)) as Hps.
  destruct (newPosts w g i 0 ds) as [ps e1]. simpl in Hps.
  specialize (IH (S i) (Dexie.bulkAdd ps t)
                (rows_bulkAdd_Forall ok ps t Ht Hps)).
  by destruct (bulkLoop w g n todo (S i) (Dexie.bulkAdd ps t))
    as [[t' e2] r].
Qed.

Lemma update_scores (k : N) (f : Post → Post) (t : Dexie.Table Post) :
  (∀ p, virality_score (f p) = virality_score p) →
  map_Forall ok (Dexie.rows t) →
  map_Forall ok (Dexie.rows (Dexie.update k f t)).
Proof.
  intros Hf Ht j p. simpl. rewrite lookup_alter_Some.
  intros [(Hkj & q & Hq & Hp)|[_ Hj]].
  - subst p. unfold ok. rewrite Hf. exact (Ht _ _ Hq).
  - exact (Ht _ _ Hj).
Qed.

Lemma perform_scores (a : Action) (db : DB) :
  drafts_in_range a → scores_ok db → scores_ok (perform a db).
Proof.
  unfold scores_ok. fold ok. intros Ha Hdb.
  destruct a as [now1 now2|w g|answer sel id|sel t c|svc sel prompt post
                |t post|api now]; simpl.
  - unfold seed, seedWrite. case_decide; [|done]. unfold with_posts. cbn [posts].
    apply rows_bulkAdd_Forall; [done|].
    repeat constructor; unfold ok, score_in_range; simpl; lia.
  - unfold handleBulkGenerate. destruct (topic g); [done|].
    pose proof (bulkLoop_scores w g (iterations_of (count g)) Ha
                  (Z.to_nat (iterations_of (count g))) 0 (posts db) Hdb).
    by destruct (bulkLoop _ _ _ _ _ _) as [[t' es] r].
  - unfold handleDelete. destruct id as [[|k]|]; try done.
    destruct answer; [|done]. simpl. by apply map_Forall_delete.
  - unfold handleSaveEdit. destruct sel as [[[|k] p]|]; try done.
    simpl. by apply update_scores.
  - unfold handleRegenerateThumbnail. destruct post.1; [done|].
    destruct (generateThumbnail _ _ _) as [[url pr]|e]; [|done].
    simpl. by apply update_scores.
  - unfold handleSetReminder. by destruct t.
  - unfold tick. by destruct (notifyAll _ _ _) as [[t' log] res].
Qed.

End Scores.

(** C1, as stated, fails: the score of a draft is stored as the text
    service returned it, so a draft scored 150 is persisted with 150. *)
Lemma score_out_of_range_counterexample :
  ∃ p, Dexie.rows (posts (perform (BulkGenerate hypedWorld (config 1))
                            emptyDB)) !! 1%N = Some p
       ∧ virality_score p = 150
       ∧ ¬ score_in_range (virality_score p).
Proof.
  eexists. split; [vm_compute; reflexivity|].
  split; [reflexivity|]. unfold score_in_range. simpl. lia.
Qed.

(** C1 (amended).  Seeding stores the scores 95 and 92, edits leave the
    stored score as it is, and bulk generation stores the score of each
    draft as the text service returned it.  So, starting from a store
    whose scores are in [0,100], after any sequence of operations in which
    the text service only returned drafts scored in [0,100], every stored
    score is in [0,100]. *)
Theorem scores_stay_in_range (actions : list Action) (db : DB) :
  scores_ok db →
  Forall drafts_in_range actions →
  scores_ok (run actions db).
Proof.
  intros Hdb Ha. revert db Hdb.
  induction Ha as [|a actions Ha _ IH]; intros db Hdb; [done|].
  simpl. apply IH. by apply perform_scores.
Qed.

Lemma scores_stay_in_range_witness :
  scores_ok
    (run [Seed 50000 50000; BulkGenerate (steadyWorld [draftA; draftB])
            (config 7); SaveEdit (Some (1%N, mkPost "t" "c" "u" None "ceo" 95 0))
            "new title" "new text"]
       emptyDB).
Proof.
  apply scores_stay_in_range.
  - intros k p Hk. vm_compute in Hk. discriminate.
  - repeat constructor. intros i ds Hds. simpl in Hds.
    injection Hds as <-.
    repeat constructor; unfold score_in_range; simpl; lia.
Defined.

(** ** Unknown ids and dangling references *)

Section UnknownId.

Lemma delete_unknown {A} (k : N) (t : Dexie.Table A) :
  Dexie.rows t !! k = None → Dexie.delete k t = t.
Proof.
  intros H. destruct t as [m nk]. unfold Dexie.delete. simpl in *.
  by rewrite delete_id.
Qed.

Lemma update_unknown {A} (k : N) (f : A → A) (t : Dexie.Table A) :
  Dexie.rows t !! k = None → Dexie.update k f t = t.
Proof.
  intros H. destruct t as [m nk]. unfold Dexie.update. simpl in *.
  by rewrite alter_id'.
Qed.

Lemma handleDelete_unknown (db : DB) (k : N) (answer : bool)
    (sel : option (N * Post)) :
  Dexie.rows (posts db) !! k = None →
  (handleDelete answer sel (Some k) db).1.1 = db
  ∧ (handleDelete answer sel (Some k) db).2 = Return tt
  ∧ alerts (handleDelete answer sel (Some k) db).1.2 = [].
Proof.
  intros H. unfold handleDelete, with_posts.
  destruct db as [ps rs]. simpl in H.
  destruct k as [|k]; [done|]. destruct answer; simpl; [|done].
  rewrite (delete_unknown _ _ H). repeat split.
  by destruct sel as [[k' p']|]; [case_decide|].
Qed.

Lemma handleSaveEdit_unknown (db : DB) (k : N) (p : Post) (t c : string) :
  Dexie.rows (posts db) !! k = None →
  (handleSaveEdit (Some (k, p)) t c db).1.1 = db
  ∧ (handleSaveEdit (Some (k, p)) t c db).2 = Return tt
  ∧ alerts (handleSaveEdit (Some (k, p)) t c db).1.2 = [].
Proof.
  intros H. unfold handleSaveEdit, with_posts.
  destruct db as [ps rs]. simpl in H.
  destruct k as [|k]; [done|]. simpl.
  by rewrite (update_unknown _ _ _ H).
Qed.

End UnknownId.

(** C9, as stated, fails: deleting and updating post 7 of a store that has
    no post 7 both complete normally and leave the store as it was. *)
Lemma unknown_id_counterexample :
  Dexie.rows (posts seededDB) !! 7%N = None
  ∧ (handleDelete true None (Some 7%N) seededDB).1.1 = seededDB
  ∧ (handleDelete true None (Some 7%N) seededDB).2 = Return tt
  ∧ (handleSaveEdit (Some (7%N, mkPost "t" "c" "u" None "ceo" 50 0))
       "new title" "new text" seededDB).1.1 = seededDB
  ∧ (handleSaveEdit (Some (7%N, mkPost "t" "c" "u" None "ceo" 50 0))
       "new title" "new text" seededDB).2 = Return tt.
Proof.
  assert (H : Dexie.rows (posts seededDB) !! 7%N = None)
    by (vm_compute; reflexivity).
  split; [exact H|].
  destruct (handleDelete_unknown seededDB 7%N true None H) as (? & ? & _).
  destruct (handleSaveEdit_unknown seededDB 7%N
              (mkPost "t" "c" "u" None "ceo" 50 0) "new title" "new text" H)
    as (? & ? & _).
  done.
Qed.

(** C9 (amended).  For an id that holds no post, the delete handler and the
    save-edit handler complete normally, without raising or reporting any
    failure, and leave both tables unchanged. *)
Theorem unknown_id_is_silent (db : DB) (k : N) (answer : bool)
    (sel : option (N * Post)) (p : Post) (t c : string) :
  Dexie.rows (posts db) !! k = None →
  (handleDelete answer sel (Some k) db).1.1 = db
  ∧ (handleDelete answer sel (Some k) db).2 = Return tt
  ∧ alerts (handleDelete answer sel (Some k) db).1.2 = []
  ∧ (handleSaveEdit (Some (k, p)) t c db).1.1 = db
  ∧ (handleSaveEdit (Some (k, p)) t c db).2 = Return tt
  ∧ alerts (handleSaveEdit (Some (k, p)) t c db).1.2 = [].
Proof.
  intros H.
  destruct (handleDelete_unknown db k answer sel H) as (? & ? & ?).
  destruct (handleSaveEdit_unknown db k p t c H) as (? & ? & ?).
  done.
Qed.

Lemma unknown_id_is_silent_witness :
  (handleDelete true None (Some 7%N) seededDB).1.1 = seededDB
  ∧ (handleDelete true None (Some 7%N) seededDB).2 = Return tt
  ∧ alerts (handleDelete true None (Some 7%N) seededDB).1.2 = []
  ∧ (handleSaveEdit (Some (7%N, mkPost "t" "c" "u" None "ceo" 50 0))
       "new title" "new text" seededDB).1.1 = seededDB
  ∧ (handleSaveEdit (Some (7%N, mkPost "t" "c" "u" None "ceo" 50 0))
       "new title" "new text" seededDB).2 = Return tt
  ∧ alerts (handleSaveEdit (Some (7%N, mkPost "t" "c" "u" None "ceo" 50 0))
       "new title" "new text" seededDB).1.2 = [].
Proof.
  apply (unknown_id_is_silent seededDB 7%N true None).
  vm_compute. reflexivity.
Defined.

(** C10.  Deleting a post leaves every reminder that refers to it exactly
    as it was: the reminders table is untouched, so the reminder is read
    back unchanged and the reminder query returns what it returned before,
    while the post itself is gone. *)
Theorem delete_keeps_reminders (db : DB) (k rk : N) (r : Reminder)
    (sel : option (N * Post)) :
  k ≠ 0%N →
  Dexie.rows (reminders db) !! rk = Some r →
  postId r = k →
  let db' := (handleDelete true sel (Some k) db).1.1 in
  Dexie.rows (posts db') !! k = None
  ∧ reminders db' = reminders db
  ∧ Dexie.rows (reminders db') !! rk = Some r
  ∧ ∀ now, dueReminders now (reminders db') = dueReminders now (reminders db).
Proof.
  intros Hk Hr _. unfold handleDelete.
  destruct k as [|k]; [done|]. simpl.
  split; [apply lookup_delete_eq|]. done.
Qed.

Lemma delete_keeps_reminders_witness :
  let db' := (handleDelete true None (Some 1%N) seededDB).1.1 in
  Dexie.rows (posts seededDB) !! 1%N ≠ None
  ∧ Dexie.rows (posts db') !! 1%N = None
  ∧ Dexie.rows (reminders db') !! 1%N
    = Some (mkReminder 1 "The 2026 'Digital CEO' Manifesto" 40000 false)
  ∧ dueReminders 45000 (reminders db')
    = [(1%N, mkReminder 1 "The 2026 'Digital CEO' Manifesto" 40000 false)].
Proof.
  pose proof (delete_keeps_reminders seededDB 1%N 1%N
                (mkReminder 1 "The 2026 'Digital CEO' Manifesto" 40000 false)
                None) as H.
  destruct H as (Hgone & Heq & Hread & Hquery);
    [done|vm_compute; reflexivity|reflexivity|].
  split; [by vm_compute|]. split; [exact Hgone|]. split; [exact Hread|].
  rewrite Hquery. vm_compute. reflexivity.
Defined.

(** ** The reminder checker *)

Section Scheduler.

Implicit Types (t : Dexie.Table Reminder) (due : list (N * Reminder)).


Lemma dueReminders_elem (now : Z) t (k : N) (r : Reminder) :
  (k, r) ∈ dueReminders now t
  ↔ Dexie.rows t !! k = Some r ∧ time r ≤ now ∧ notified r = false.
Proof.
  unfold dueReminders, Dexie.orderBy.
  rewrite !list_elem_of_filter, merge_sort_Permutation,
    elem_of_map_to_list. simpl. tauto.
Qed.

Lemma dueReminders_NoDup (now : Z) t : NoDup (dueReminders now t).*1.
Proof.
  unfold dueReminders, Dexie.orderBy.
  eapply sublist_NoDup; [|apply fmap_sublist, sublist_filter].
  eapply sublist_NoDup; [|apply fmap_sublist, sublist_filter].
  rewrite merge_sort_Permutation. apply NoDup_fst_map_to_list.
Qed.

(** A reminder that is not in the list is neither notified nor
    changed, whatever the Notification API does. *)
Lemma notifyAll_frame (api : NotificationApi) (rk : N) due :
  ∀ t, rk ∉ due.*1 →
       let '(t', log, _) := notifyAll api due t in
       Dexie.rows t' !! rk = Dexie.rows t !! rk ∧ deliveries rk log = [].
Proof.
  induction due as [|[k r] due IH]; intros t Hrk; simpl; [done|].
  apply not_elem_of_cons in Hrk as [Hne Hrk]. simpl in Hne.
  destruct (sendNotification api _ _) as [ev|e]; [|done].
  specialize (IH (Dexie.update k (set_notified true) t) Hrk).
  destruct (notifyAll api due _) as [[t' log] res].
  destruct IH as [IH1 IH2]. split.
  - rewrite IH1. simpl. by apply lookup_alter_ne.
  - unfold deliveries in *. by rewrite filter_cons_False.
Qed.


(** With the Notification API present, a reminder in the list is
    notified once and its flag is set. *)
Lemma notifyAll_fires (api : NotificationApi) (rk : N) (r : Reminder) due :
  in_window api = true →
  NoDup due.*1 → (rk, r) ∈ due →
  ∀ t stored, Dexie.rows t !! rk = Some stored →
    let '(t', log, _) := notifyAll api due t in
    Dexie.rows t' !! rk = Some (set_notified true stored)
    ∧ Return <$> deliveries rk log
      = [sendNotification api "Post Reminder" (notice r)].
Proof.
  intros Hw. induction due as [|[k r'] due IH]; intros Hnd Hin t stored Ht.
  { by apply elem_of_nil in Hin. }
  simpl in Hnd. apply NoDup_cons in Hnd as [Hk Hnd]. simpl.
  assert (Hsend : ∀ s, ∃ ev, sendNotification api "Post Reminder" s
                             = Return ev).
  { intros s. unfold sendNotification. rewrite Hw.
    destruct (granted api); eauto. }
  destruct (Hsend ("Time to share: " +:+ postTitle r')) as [ev Hev].
  rewrite Hev.
  apply elem_of_cons in Hin as [Heq|Hin].
  - injection Heq as -> ->.
    pose proof (notifyAll_frame api k due
                  (Dexie.update k (set_notified true) t) Hk) as Hf.
    destruct (notifyAll api due _) as [[t' log] res].
    destruct Hf as [Hf1 Hf2]. split.
    + rewrite Hf1. simpl. by rewrite lookup_alter_eq, Ht.
    + unfold deliveries in *. rewrite filter_cons_True by done.
      simpl. unfold notice. rewrite Hev. f_equal.
      by rewrite <- (fmap_nil Return), <- Hf2.
  - assert (Hne : k ≠ rk).
    { intros ->. apply Hk. by apply (list_elem_of_fmap_2 fst) in Hin. }
    specialize (IH Hnd Hin (Dexie.update k (set_notified true) t) stored).
    destruct (notifyAll api due _) as [[t' log] res].
    destruct IH as [IH1 IH2].
    { simpl. by rewrite lookup_alter_ne. }
    split; [done|]. unfold deliveries in *.
    by rewrite filter_cons_False.
Qed.




End Scheduler.


(** C2: where the code departs from it.  [sendNotification] reads
    [Notification.permission] without the test for the API that
    [requestNotificationPermission] makes first.  On a page without the
    Notification API it throws before anything is shown, its own alert
    fallback included; the run of the checker stops there, before the
    update, so the flag of the due reminder is not set; and every later run
    finds the reminder due again and throws again. *)
Theorem missing_api_leaves_the_flag_unset :
  Dexie.rows (reminders seededDB) !! 1%N
  = Some (mkReminder 1 "The 2026 'Digital CEO' Manifesto" 40000 false)
  ∧ sendNotification noNotificationApi "Post Reminder"
      "Time to share: The 2026 'Digital CEO' Manifesto"
    = Throw ReferenceError
  ∧ tick noNotificationApi 45000 seededDB
    = (seededDB, [], Throw ReferenceError)
  ∧ ticks noNotificationApi [45000; 55000; 65000] seededDB = (seededDB, []).
Proof. vm_compute. done. Qed.

(** ** Thumbnails that fail *)

Section Fallback.

Lemma length_append (a b : string) :
  String.length (a +:+ b) = (String.length a + String.length b)%nat.
Proof. induction a as [|c a IH]; simpl; [done|]. by rewrite IH. Qed.

Lemma append_inj_r (s a b : string) : a +:+ s = b +:+ s → a = b.
Proof.
  revert b. induction a as [|c a IH]; intros [|c' b] H; simpl in H.
  - done.
  - apply (f_equal String.length) in H.
    rewrite !length_append in H. simpl in H. lia.
  - apply (f_equal String.length) in H.
    rewrite !length_append in H. simpl in H. lia.
  - injection H as -> H. f_equal. by apply IH.
Qed.

(** Two placeholder references are the same only for the same seed. *)
Lemma picsum_inj (a b : string) : picsum a = picsum b → a = b.
Proof.
  unfold picsum. intros H. apply String.app_inj in H.
  by apply append_inj_r in H.
Qed.

Variable w : World.
Variable genConfig : GenConfig.

Lemma chunks_length (drafts : nat → list Draft) (start len : nat) :
  length (concat (map (fun k => chunkPosts w genConfig (drafts k) k)
                    (seq start len)))
  = length (concat (map drafts (seq start len))).
Proof.
  revert start. induction len as [|len IH]; intros start; simpl; [done|].
  rewrite !length_app, IH. f_equal. apply newPosts_length.
Qed.

Lemma chunks_lookup (drafts : nat → list Draft) (good i j : nat)
    (d : Draft) :
  (i < good)%nat → drafts i !! j = Some d →
  concat (map (fun k => chunkPosts w genConfig (drafts k) k) (seq 0 good))
    !! (offset drafts i + j)%nat
  = Some (newPost w genConfig i j d).1.
Proof.
  intros Hi Hj.
  replace good with (i + S (good - S i))%nat by lia.
  rewrite seq_app, map_app, concat_app. simpl.
  rewrite lookup_app_r by (rewrite chunks_length; unfold offset; lia).
  rewrite chunks_length. unfold offset.
  replace (length (concat (map drafts (seq 0 i))) + j
           - length (concat (map drafts (seq 0 i))))%nat with j by lia.
  rewrite lookup_app_l.
  - unfold chunkPosts. by rewrite newPosts_lookup, Hj.
  - unfold chunkPosts. rewrite newPosts_length.
    by apply lookup_lt_Some in Hj.
Qed.

Lemma offset_S (drafts : nat → list Draft) (i : nat) :
  offset drafts (S i) = (offset drafts i + length (drafts i))%nat.
Proof.
  unfold offset. rewrite seq_S, map_app, concat_app, length_app. simpl.
  by rewrite app_nil_r.
Qed.

(** Every position below the offset of chunk [good] is that of a draft of
    an earlier chunk. *)
Lemma offset_cover (drafts : nat → list Draft) (good n : nat) :
  (n < offset drafts good)%nat →
  ∃ k j d, (k < good)%nat ∧ drafts k !! j = Some d
           ∧ n = (offset drafts k + j)%nat.
Proof.
  induction good as [|good IH]; intros Hn.
  - unfold offset in Hn. simpl in Hn. lia.
  - rewrite offset_S in Hn.
    destruct (decide (n < offset drafts good)%nat) as [Hlt|Hge].
    + destruct (IH Hlt) as (k & j & d & Hk & Hd & ->).
      exists k, j, d. split; [lia|done].
    + destruct (lookup_lt_is_Some_2 (drafts good) (n - offset drafts good))
        as [d Hd]; [lia|].
      exists good, (n - offset drafts good)%nat, d.
      split; [lia|]. split; [done|lia].
Qed.

End Fallback.

(** ** A text request that fails *)

(** C3.  When the text request of chunk N+1 is rejected after N chunks
    went through, the posts table is the old one with exactly the posts
    of those N chunks added, in order: every draft of those chunks is
    stored under a fresh id of its own, with the thumbnail generated for
    it or the placeholder; the ids given out are those of these drafts
    and no others; every other row and every reminder is as it was; N+1
    text requests were made in all; and the caller is alerted exactly
    once. *)
Theorem text_failure_keeps_prior_chunks (w : World) (genConfig : GenConfig)
    (db : DB) (N : nat) (drafts : nat → list Draft) (e : Exn) :
  topic genConfig ≠ EmptyString →
  (N < Z.to_nat (iterations_of (count genConfig)))%nat →
  (∀ k, (k < N)%nat →
        generatePostsBulk (textService w k) = Return (Some (drafts k))) →
  textService w N = Throw e →
  let '(db', es) := handleBulkGenerate w genConfig db in
  posts db'
  = Dexie.bulkAdd
      (concat (map (fun k => chunkPosts w genConfig (drafts k) k)
                 (seq 0 N)))
      (posts db)
  ∧ (∀ k j d, (k < N)%nat → drafts k !! j = Some d →
       Dexie.rows (posts db')
         !! (Dexie.next_key (posts db) + N.of_nat (offset drafts k + j))%N
       = Some
           (let '(url, prompt) :=
              match
                generateThumbnail (thumbnailService w k j) (d_content d) None
              with
              | Return made => made
              | Throw _ => (picsum (Math_random w k j), EmptyString)
              end in
            mkPost (d_title d) (d_content d) url (Some prompt)
              (gen_style genConfig) (d_virality_score d)
              (Date_now w k j - (Z.of_nat k * 5 + Z.of_nat j))))
  ∧ Dexie.next_key (posts db')
    = (Dexie.next_key (posts db) + N.of_nat (offset drafts N))%N
  ∧ (∀ key,
       (Dexie.next_key (posts db) ≤ key
        < Dexie.next_key (posts db) + N.of_nat (offset drafts N))%N →
       ∃ k j d, (k < N)%nat ∧ drafts k !! j = Some d
                ∧ key = (Dexie.next_key (posts db)
                         + N.of_nat (offset drafts k + j))%N)
  ∧ (∀ key,
       (key < Dexie.next_key (posts db)
        ∨ Dexie.next_key (posts db) + N.of_nat (offset drafts N) ≤ key)%N →
       Dexie.rows (posts db') !! key = Dexie.rows (posts db) !! key)
  ∧ reminders db' = reminders db
  ∧ length (textRequests es) = S N
  ∧ alerts es
    = ["Generation encountered an error. Some posts may have been saved."].
Proof.
  intros Ht HN Hok Hfail.
  pose proof (handleBulkGenerate_run w genConfig db Ht drafts N) as H.
  destruct (handleBulkGenerate w genConfig db) as [db' es].
  destruct H as (Hposts & Hrem & Hreq & _ & Hal); [lia|done| |].
  { right. intros ds. by rewrite Hfail. }
  rewrite decide_False in Hreq by lia. rewrite decide_False in Hal by lia.
  split; [done|]. rewrite Hposts.
  split; [|split; [|split; [|split; [|split; [|split]]]]].
  - intros k j d Hk Hj.
    erewrite rows_bulkAdd_new; [|by apply chunks_lookup].
    unfold newPost.
    by destruct (generateThumbnail _ _ _) as [[url prompt]|e'].
  - by rewrite next_key_bulkAdd, chunks_length.
  - intros key Hkey.
    destruct (offset_cover drafts N
                (N.to_nat (key - Dexie.next_key (posts db))))
      as (k & j & d & Hk & Hd & Hpos); [lia|].
    exists k, j, d. split; [done|]. split; [done|lia].
  - intros key [Hkey|Hkey].
    + by apply rows_bulkAdd_old.
    + apply rows_bulkAdd_beyond. rewrite chunks_length.
      change (length (concat (map drafts (seq 0 N)))) with (offset drafts N).
      done.
  - done.
  - rewrite Hreq, length_map, length_seq. done.
  - done.
Qed.

Lemma text_failure_witness :
  let '(db', es) := handleBulkGenerate outageWorld (config 12) emptyDB in
  Dexie.rows (posts db') !! 1%N
  = Some (mkPost "A" "first" "data:image/png;base64,AAAA" (Some "a desk")
            "ceo" 80 1000)
  ∧ Dexie.next_key (posts db') = 2%N
  ∧ Dexie.rows (posts db') !! 2%N = None
  ∧ reminders db' = reminders emptyDB
  ∧ length (textRequests es) = 2%nat
  ∧ alerts es
    = ["Generation encountered an error. Some posts may have been saved."].
Proof.
  pose proof (text_failure_keeps_prior_chunks outageWorld (config 12) emptyDB
                1 (fun _ => [draftA]) RequestError) as H.
  destruct (handleBulkGenerate outageWorld (config 12) emptyDB) as [db' es].
  destruct H as (_ & Hrow & Hkey & _ & Hframe & Hrem & Hreq & Hal).
  - discriminate.
  - vm_compute. lia.
  - intros [|k] Hk; [reflexivity|lia].
  - reflexivity.
  - split; [exact (Hrow 0%nat 0%nat draftA ltac:(lia) eq_refl)|].
    split; [exact Hkey|].
    split; [exact (Hframe 2%N ltac:(right; vm_compute; discriminate))|].
    split; [exact Hrem|]. split; [exact Hreq|exact Hal].
Defined.

(** C5, as stated, fails: the fallback reference carries a fresh
    [Math.random ()] value, so two drafts whose thumbnails fail are stored
    with different references. *)
Lemma fallback_differs_counterexample :
  let db' := (handleBulkGenerate noImagesWorld (config 2) emptyDB).1 in
  generateThumbnail (thumbnailService noImagesWorld 0 0) "first" None
  = Throw RequestError
  ∧ generateThumbnail (thumbnailService noImagesWorld 0 1) "second" None
    = Throw RequestError
  ∧ thumbnail_url <$> Dexie.rows (posts db') !! 1%N
    = Some "https://picsum.photos/seed/0.25/800/450"
  ∧ thumbnail_url <$> Dexie.rows (posts db') !! 2%N
    = Some "https://picsum.photos/seed/0.75/800/450".
Proof. vm_compute. done. Qed.

(** C5 (amended).  In a run that gets through [good] chunks, a draft whose
    thumbnail request fails is still stored, with an empty thumbnail
    prompt and the placeholder reference seeded with the value of
    [Math.random ()] drawn for that draft, and the batch goes on: every
    draft of the [good] chunks is written.  The placeholder of another
    draft is the same reference only if the same random value was drawn
    for it. *)
Theorem thumbnail_failure_uses_fallback (w : World) (genConfig : GenConfig)
    (db : DB) (drafts : nat → list Draft) (good i j : nat) (d : Draft)
    (e : Exn) :
  topic genConfig ≠ EmptyString →
  (good ≤ Z.to_nat (iterations_of (count genConfig)))%nat →
  (∀ k, (k < good)%nat →
        generatePostsBulk (textService w k) = Return (Some (drafts k))) →
  (good = Z.to_nat (iterations_of (count genConfig)) ∨
   ∀ ds, generatePostsBulk (textService w good) ≠ Return (Some ds)) →
  (i < good)%nat →
  drafts i !! j = Some d →
  generateThumbnail (thumbnailService w i j) (d_content d) None = Throw e →
  let db' := (handleBulkGenerate w genConfig db).1 in
  Dexie.rows (posts db')
    !! (Dexie.next_key (posts db) + N.of_nat (offset drafts i + j))%N
  = Some (mkPost (d_title d) (d_content d) (picsum (Math_random w i j))
            (Some EmptyString) (gen_style genConfig) (d_virality_score d)
            (Date_now w i j - (Z.of_nat i * 5 + Z.of_nat j)))
  ∧ Dexie.next_key (posts db')
    = (Dexie.next_key (posts db) + N.of_nat (offset drafts good))%N
  ∧ ∀ i' j', picsum (Math_random w i' j') = picsum (Math_random w i j) →
             Math_random w i' j' = Math_random w i j.
Proof.
  intros Ht Hle Hok Hend Hi Hj Hfail.
  pose proof (handleBulkGenerate_run w genConfig db Ht drafts good Hle Hok
                Hend) as H.
  destruct (handleBulkGenerate w genConfig db) as [db' es].
  destruct H as (Hposts & _). simpl. rewrite Hposts. split; [|split].
  - erewrite rows_bulkAdd_new; [|by apply chunks_lookup].
    unfold newPost. by rewrite Hfail.
  - by rewrite next_key_bulkAdd, chunks_length.
  - intros i' j'. apply picsum_inj.
Qed.

Lemma thumbnail_failure_witness :
  let db' := (handleBulkGenerate noImagesWorld (config 2) emptyDB).1 in
  Dexie.rows (posts db') !! 2%N
  = Some (mkPost "B" "second" "https://picsum.photos/seed/0.75/800/450"
            (Some EmptyString) "ceo" 70 999)
  ∧ Dexie.next_key (posts db') = 3%N.
Proof.
  pose proof (thumbnail_failure_uses_fallback noImagesWorld (config 2)
                emptyDB (fun _ => [draftA; draftB]) 1 0 1 draftB
                RequestError) as H.
  destruct H as (Hrow & Hkey & _).
  - discriminate.
  - vm_compute. lia.
  - intros k Hk. reflexivity.
  - left. vm_compute. reflexivity.
  - lia.
  - reflexivity.
  - reflexivity.
  - split; [exact Hrow|exact Hkey].
Defined.

(** ** Responses of the wrong shape *)

Section Shape.

(** Text that is not JSON, and the JSON text [null], count as no
    drafts. *)
Lemma unparsable_is_empty (v : ResponseText) :
  v = Unparsable ∨ v = Parses JsonNull →
  generatePostsBulk (Return (Some v)) = Return (Some []).
Proof. by intros [-> | ->]. Qed.

(** A response without text, and JSON text without a [posts] property,
    make [generatePostsBulk] return [undefined]. *)
Lemma missing_posts_is_undefined (text : option ResponseText) :
  text = None ∨ text = Some (Parses (JsonValue None)) →
  generatePostsBulk (Return text) = Return None.
Proof. by intros [-> | ->]. Qed.

Lemma garbled_run_continues :
  let '(db', es) := handleBulkGenerate garbledWorld (config 10) emptyDB in
  db' = emptyDB ∧ textRequests es = [5; 5] ∧ alerts es = []
  ∧ progressReports es = [0; 50; 100; 0].
Proof. vm_compute. done. Qed.

(** A run is cut short in the same way by a rejected text request and by
    a response of which [generatePostsBulk] makes [undefined]. *)
Lemma undefined_drafts_abort (w : World) (genConfig : GenConfig) (db : DB)
    (N : nat) (drafts : nat → list Draft) :
  topic genConfig ≠ EmptyString →
  (N < Z.to_nat (iterations_of (count genConfig)))%nat →
  (∀ k, (k < N)%nat →
        generatePostsBulk (textService w k) = Return (Some (drafts k))) →
  generatePostsBulk (textService w N) = Return None →
  let '(db', es) := handleBulkGenerate w genConfig db in
  length (textRequests es) = S N
  ∧ alerts es
    = ["Generation encountered an error. Some posts may have been saved."].
Proof.
  intros Ht HN Hok Hfail.
  pose proof (handleBulkGenerate_run w genConfig db Ht drafts N) as H.
  destruct (handleBulkGenerate w genConfig db) as [db' es].
  destruct H as (_ & _ & Hreq & _ & Hal); [lia|done| |].
  { right. intros ds. by rewrite Hfail. }
  rewrite decide_False in Hreq by lia. rewrite decide_False in Hal by lia.
  rewrite Hreq, length_map, length_seq. done.
Qed.

End Shape.

(** C4: where the code departs from it.  Ten posts are requested and the
    first response carries no text.  [generatePostsBulk] parses the
    default text, an empty object, and returns its missing [posts]
    property; reading its length throws, the handler alerts, and the
    second chunk is never requested. *)
Theorem missing_posts_stops_the_run :
  generatePostsBulk (textService blankWorld 0) = Return None
  ∧ iterations_of (count (config 10)) = 2
  ∧ let '(db', es) := handleBulkGenerate blankWorld (config 10) emptyDB in
    db' = emptyDB
    ∧ textRequests es = [5]
    ∧ progressReports es = [0; 0]
    ∧ alerts es
      = ["Generation encountered an error. Some posts may have been saved."].
Proof. vm_compute. done. Qed.

(** ** Creation times *)

Section Stamps.

Variable w : World.
Variable genConfig : GenConfig.

Lemma newPost_created_at (i j : nat) (d : Draft) :
  created_at (newPost w genConfig i j d).1
  = Date_now w i j - (Z.of_nat i * chunkSize + Z.of_nat j).
Proof.
  unfold newPost. by destruct (generateThumbnail _ _ _) as [[? ?]|?].
Qed.

(** If the clock reads the same for two drafts of a chunk, the later
    draft gets the smaller creation time. *)
Lemma stamps_decrease_on_a_still_clock (i j j' : nat) (d d' : Draft) :
  Date_now w i j = Date_now w i j' → (j < j')%nat →
  created_at (newPost w genConfig i j' d').1
  < created_at (newPost w genConfig i j d).1.
Proof. intros Hc Hj. rewrite !newPost_created_at, Hc. lia. Qed.

(** If the clock advances by more than the distance of their indices,
    the later draft gets the larger creation time. *)
Lemma stamps_increase_on_a_running_clock (i j j' : nat) (d d' : Draft) :
  Date_now w i j + (Z.of_nat j' - Z.of_nat j) < Date_now w i j' →
  created_at (newPost w genConfig i j d).1
  < created_at (newPost w genConfig i j' d').1.
Proof. intros Hc. rewrite !newPost_created_at. lia. Qed.

End Stamps.

(** C6: where the code departs from it.  The creation time is computed from
    a clock reading taken after the thumbnail of the draft was awaited.
    With two drafts in the chunk and a clock that reads 1000 and then 3000,
    the drafts are stamped 1000 and 2999, and the post list, sorted by
    creation time descending, shows the second draft first. *)
Theorem stamps_follow_the_clock :
  let db' := (handleBulkGenerate tickingWorld (config 2) emptyDB).1 in
  (title <$> Dexie.rows (posts db') !! 1%N = Some "A"
   ∧ created_at <$> Dexie.rows (posts db') !! 1%N = Some 1000)
  ∧ (title <$> Dexie.rows (posts db') !! 2%N = Some "B"
     ∧ created_at <$> Dexie.rows (posts db') !! 2%N = Some 2999)
  ∧ (fun r => title r.2) <$> livePosts db' = ["B"; "A"].
Proof. vm_compute. done. Qed.

(** ** Keys *)

Section Keys.

Context {A : Type}.
Implicit Types (t : Dexie.Table A) (xs : list A).

Lemma keys_issued_empty : keys_issued (@Dexie.empty A).
Proof.
  split; [simpl; lia|]. intros k [x Hx]. simpl in Hx.
  by rewrite lookup_empty in Hx.
Qed.

Lemma keys_issued_add x t : keys_issued t → keys_issued (Dexie.add x t).
Proof.
  intros [H1 H2]. split; [simpl; lia|]. intros k Hk. simpl in *.
  destruct (decide (k = Dexie.next_key t)) as [->|Hne]; [lia|].
  rewrite lookup_insert_ne in Hk by done. specialize (H2 k Hk). lia.
Qed.

Lemma keys_issued_bulkAdd xs t :
  keys_issued t → keys_issued (Dexie.bulkAdd xs t).
Proof.
  revert t. induction xs as [|x xs IH]; intros t Ht; [done|].
  rewrite bulkAdd_cons. by apply IH, keys_issued_add.
Qed.

Lemma keys_issued_update (k : N) (f : A → A) t :
  keys_issued t → keys_issued (Dexie.update k f t).
Proof.
  intros [H1 H2]. split; [done|]. intros j Hj. simpl in *. apply H2.
  destruct Hj as [y Hy]. apply lookup_alter_Some in Hy.
  destruct Hy as [(_ & x & Hx & _)|[_ Hx]]; eauto.
Qed.

Lemma keys_issued_delete (k : N) t :
  keys_issued t → keys_issued (Dexie.delete k t).
Proof.
  intros [H1 H2]. split; [done|]. intros j Hj. simpl in *. apply H2.
  destruct Hj as [y Hy]. apply lookup_delete_Some in Hy as [_ Hy]. eauto.
Qed.

Lemma keys_issued_unused t :
  keys_issued t → Dexie.rows t !! Dexie.next_key t = None.
Proof.
  intros [_ H]. destruct (Dexie.rows t !! Dexie.next_key t) eqn:E; [|done].
  specialize (H (Dexie.next_key t)). rewrite E in H.
  specialize (H (mk_is_Some _ _ eq_refl)). lia.
Qed.

Lemma count_bulkAdd xs t :
  keys_issued t →
  Dexie.count (Dexie.bulkAdd xs t) = (Dexie.count t + length xs)%nat.
Proof.
  revert t. induction xs as [|x xs IH]; intros t Ht.
  - change (Dexie.bulkAdd [] t) with t. simpl. lia.
  - rewrite bulkAdd_cons, IH by by apply keys_issued_add.
    unfold Dexie.count. simpl.
    rewrite map_size_insert_None by by apply keys_issued_unused. lia.
Qed.

End Keys.

Section Adds.

Variable w : World.
Variable genConfig : GenConfig.

(** Whatever the services answer, the loop only adds posts. *)
Lemma bulkLoop_adds (n : Z) (todo : nat) :
  ∀ (i : nat) (t : Dexie.Table Post),
    ∃ ps, (bulkLoop w genConfig n todo i t).1.1 = Dexie.bulkAdd ps t.
Proof.
  induction todo as [|todo IH]; intros i t; simpl.
  - by exists [].
  - destruct (generatePostsBulk (textService w i)) as [[ds|]|e];
      simpl; try by exists [].
    destruct (newPosts w genConfig i 0 ds) as [ps e1].
    destruct (IH (S i) (Dexie.bulkAdd ps t)) as [qs Hqs].
    destruct (bulkLoop w genConfig n todo (S i) (Dexie.bulkAdd ps t))
      as [[t' e2] r].
    simpl in *. exists (ps ++ qs). by rewrite bulkAdd_app.
Qed.

Lemma handleBulkGenerate_adds (db : DB) :
  ∃ ps, posts (handleBulkGenerate w genConfig db).1
        = Dexie.bulkAdd ps (posts db)
        ∧ reminders (handleBulkGenerate w genConfig db).1 = reminders db.
Proof.
  unfold handleBulkGenerate. destruct (topic genConfig); [by exists []|].
  destruct (bulkLoop_adds (iterations_of (count genConfig))
              (Z.to_nat (iterations_of (count genConfig))) 0 (posts db))
    as [ps Hps].
  destruct (bulkLoop _ _ _ _ _ _) as [[t es] r]. simpl in *. by exists ps.
Qed.

End Adds.

Section Fires.

Implicit Types (t : Dexie.Table Reminder) (due : list (N * Reminder)).

(** Whatever the Notification API does, the loop of the checker leaves the
    key counter alone and each row either as it was or with its flag
    set. *)
Lemma notifyAll_rows_any (api : NotificationApi) due :
  ∀ t, let t' := (notifyAll api due t).1.1 in
       Dexie.next_key t' = Dexie.next_key t
       ∧ ∀ k, Dexie.rows t' !! k = Dexie.rows t !! k
              ∨ Dexie.rows t' !! k = set_notified true <$> Dexie.rows t !! k.
Proof.
  induction due as [|[j r] due IH]; intros t; simpl; [by split; [|left]|].
  destruct (sendNotification api _ _) as [ev|e]; [|by split; [|left]].
  specialize (IH (Dexie.update j (set_notified true) t)).
  destruct (notifyAll api due _) as [[t' log] res]. simpl in *.
  destruct IH as [Hn Hrows]. split; [done|]. intros k.
  destruct (Hrows k) as [Hk|Hk]; rewrite Hk;
    destruct (decide (j = k)) as [->|Hne];
    rewrite ?lookup_alter_eq, ?lookup_alter_ne by done; auto.
  right. by destruct (Dexie.rows t !! k).
Qed.

(** With the Notification API present, the loop sets the flag of exactly
    the reminders in the list, and notifies them in the order of the
    list. *)
Lemma notifyAll_rows (api : NotificationApi) due :
  in_window api = true →
  ∀ t, let '(t', log, res) := notifyAll api due t in
       res = Return tt
       ∧ log = (fun r => (r.1, reminderEvent api r.2)) <$> due
       ∧ ∀ k, Dexie.rows t' !! k
              = if decide (k ∈ due.*1)
                then set_notified true <$> Dexie.rows t !! k
                else Dexie.rows t !! k.
Proof.
  intros Hw. induction due as [|[j r] due IH]; intros t.
  { simpl. done. }
  cbn [notifyAll fst snd]. rewrite !fmap_cons. cbn [fst snd].
  unfold sendNotification at 1. rewrite Hw.
  specialize (IH (Dexie.update j (set_notified true) t)).
  assert (Hev : (if granted api
                 then Return (Notification "Post Reminder"
                                ("Time to share: " +:+ postTitle r))
                 else Return (Alert ("REMINDER: " +:+ "Post Reminder" +:+ "
" +:+ "Time to share: " +:+ postTitle r)))
                = Return (reminderEvent api r)).
  { unfold reminderEvent, notice. by destruct (granted api). }
  rewrite Hev.
  destruct (notifyAll api due _) as [[t' log] res].
  destruct IH as (Hres & Hlog & Hrows). repeat split; [done|by rewrite Hlog|].
  intros k. rewrite Hrows. cbn [Dexie.update Dexie.rows].
  destruct (decide (j = k)) as [->|Hne].
  - rewrite lookup_alter_eq, (decide_True (P := k ∈ k :: due.*1))
      by apply list_elem_of_here.
    case_decide; [|done]. by destruct (Dexie.rows t !! k).
  - rewrite lookup_alter_ne by done.
    destruct (decide (k ∈ due.*1)) as [Hin|Hout].
    + by rewrite decide_True by by apply list_elem_of_further.
    + rewrite decide_False; [done|].
      intros Hc. apply elem_of_cons in Hc as [?|?]; congruence.
Qed.

End Fires.

(** ** What every operation keeps *)

Section Kept.

Lemma tick_tables (api : NotificationApi) (now : Z) (db : DB) :
  let db' := (tick api now db).1.1 in
  posts db' = posts db
  ∧ Dexie.next_key (reminders db') = Dexie.next_key (reminders db)
  ∧ ∀ k, Dexie.rows (reminders db') !! k = Dexie.rows (reminders db) !! k
         ∨ Dexie.rows (reminders db') !! k
           = set_notified true <$> Dexie.rows (reminders db) !! k.
Proof.
  unfold tick.
  pose proof (notifyAll_rows_any api (dueReminders now (reminders db))
                (reminders db)) as H.
  destruct (notifyAll api _ _) as [[t log] res]. simpl in *.
  destruct H as [H1 H2]. done.
Qed.

Lemma perform_wellKeyed (a : Action) (db : DB) :
  wellKeyed db → wellKeyed (perform a db).
Proof.
  intros [Hp Hr].
  destruct a as [now1 now2|w g|answer sel id|sel t c|svc sel prompt post
                |t post|api now]; simpl.
  - unfold seed, seedWrite. case_decide; [|done].
    split; [by apply keys_issued_bulkAdd|done].
  - destruct (handleBulkGenerate_adds w g db) as (ps & Hps & Hrem).
    split; [rewrite Hps; by apply keys_issued_bulkAdd|by rewrite Hrem].
  - unfold handleDelete. destruct id as [[|k]|]; try done.
    destruct answer; [|done]. split; [by apply keys_issued_delete|done].
  - unfold handleSaveEdit. destruct sel as [[[|k] p]|]; try done.
    split; [by apply keys_issued_update|done].
  - unfold handleRegenerateThumbnail. destruct post.1; [done|].
    destruct (generateThumbnail _ _ _) as [[url pr]|e]; [|done].
    split; [by apply keys_issued_update|done].
  - unfold handleSetReminder. destruct t; [|done].
    split; [done|by apply keys_issued_add].
  - destruct (tick_tables api now db) as (Hposts & Hnext & Hrows).
    split; [by rewrite Hposts|]. destruct Hr as [Hr1 Hr2].
    split; [by rewrite Hnext|]. intros k Hk. rewrite Hnext. apply Hr2.
    destruct (Hrows k) as [Hrk|Hrk]; rewrite Hrk in Hk; [done|].
    by apply fmap_is_Some in Hk.
Qed.

Lemma run_wellKeyed (actions : list Action) (db : DB) :
  wellKeyed db → wellKeyed (run actions db).
Proof.
  revert db. induction actions as [|a actions IH]; intros db Hdb; [done|].
  simpl. by apply IH, perform_wellKeyed.
Qed.

Lemma emptyDB_wellKeyed : wellKeyed emptyDB.
Proof. split; apply keys_issued_empty. Qed.

Lemma perform_reminder (a : Action) (db : DB) (rk : N) (r : Reminder) :
  wellKeyed db →
  Dexie.rows (reminders db) !! rk = Some r →
  Dexie.rows (reminders (perform a db)) !! rk = Some r
  ∨ Dexie.rows (reminders (perform a db)) !! rk = Some (set_notified true r).
Proof.
  intros [_ [_ Hkeys]] Hr.
  destruct a as [now1 now2|w g|answer sel id|sel t c|svc sel prompt post
                |t post|api now]; simpl.
  - unfold seed, seedWrite. case_decide; by left.
  - destruct (handleBulkGenerate_adds w g db) as (ps & _ & ->). by left.
  - unfold handleDelete. destruct id as [[|k]|]; try by left.
    destruct answer; by left.
  - unfold handleSaveEdit. destruct sel as [[[|k] p]|]; by left.
  - unfold handleRegenerateThumbnail. destruct post.1; [by left|].
    destruct (generateThumbnail _ _ _) as [[url pr]|e]; by left.
  - unfold handleSetReminder. destruct t; [|by left]. left. simpl.
    rewrite lookup_insert_ne; [done|].
    specialize (Hkeys rk). rewrite Hr in Hkeys.
    specialize (Hkeys (mk_is_Some _ _ eq_refl)). lia.
  - destruct (tick_tables api now db) as (_ & _ & Hrows).
    destruct (Hrows rk) as [-> | ->]; rewrite Hr; auto.
Qed.

Lemma perform_free (a : Action) (db : DB) (k : N) :
  (k < Dexie.next_key (posts db))%N → Dexie.rows (posts db) !! k = None →
  (k < Dexie.next_key (posts (perform a db)))%N
  ∧ Dexie.rows (posts (perform a db)) !! k = None.
Proof.
  intros Hk Hnone.
  assert (Hadd : ∀ ps, (k < Dexie.next_key (Dexie.bulkAdd ps (posts db)))%N
                       ∧ Dexie.rows (Dexie.bulkAdd ps (posts db)) !! k = None).
  { intros ps. rewrite next_key_bulkAdd, rows_bulkAdd_old by done.
    split; [lia|done]. }
  destruct a as [now1 now2|w g|answer sel id|sel t c|svc sel prompt post
                |t post|api now]; simpl.
  - unfold seed, seedWrite. case_decide; [apply Hadd|done].
  - destruct (handleBulkGenerate_adds w g db) as (ps & -> & _). apply Hadd.
  - unfold handleDelete. destruct id as [[|j]|]; try done.
    destruct answer; [|done]. simpl. split; [done|].
    by apply lookup_delete_None; right.
  - unfold handleSaveEdit. destruct sel as [[[|j] p]|]; try done.
    simpl. split; [done|]. by apply lookup_alter_None.
  - unfold handleRegenerateThumbnail. destruct post.1; [done|].
    destruct (generateThumbnail _ _ _) as [[url pr]|e]; [|done].
    simpl. split; [done|]. by apply lookup_alter_None.
  - unfold handleSetReminder. by destruct t.
  - destruct (tick_tables api now db) as (-> & _). done.
Qed.

(** Through any sequence of operations a stored reminder stays stored
    under its id with its post id, title snapshot and due time; the only
    change it ever undergoes is that its flag becomes set, and a set flag
    stays set. *)
Theorem reminders_only_fire (actions : list Action) (db : DB) (rk : N)
    (r : Reminder) :
  wellKeyed db →
  Dexie.rows (reminders db) !! rk = Some r →
  ∃ r', Dexie.rows (reminders (run actions db)) !! rk = Some r'
        ∧ postId r' = postId r ∧ postTitle r' = postTitle r
        ∧ time r' = time r
        ∧ (notified r = true → notified r' = true).
Proof.
  revert db r. induction actions as [|a actions IH]; intros db r Hdb Hr.
  { exists r. done. }
  simpl.
  destruct (perform_reminder a db rk r Hdb Hr) as [H|H];
    destruct (IH _ _ (perform_wellKeyed a db Hdb) H)
      as (r' & Hr' & H1 & H2 & H3 & H4);
    exists r'; repeat split; try done.
  intros _. by apply H4.
Qed.

Lemma reminders_only_fire_witness :
  ∃ r', Dexie.rows
          (reminders
             (run [Tick notGranted 45000; Delete true None (Some 1%N);
                   Tick noNotificationApi 55000;
                   SetReminder (Some 1) (2%N, mkPost "t" "c" "u" None "ceo" 1 0)]
                seededDB)) !! 1%N = Some r'
        ∧ postId r' = 1%N
        ∧ postTitle r' = "The 2026 'Digital CEO' Manifesto"
        ∧ time r' = 40000
        ∧ (false = true → notified r' = true).
Proof.
  apply (reminders_only_fire _ seededDB 1%N
           (mkReminder 1 "The 2026 'Digital CEO' Manifesto" 40000 false)).
  - apply (run_wellKeyed [Seed 50000 50000;
                          SetReminder (Some 40000)
                            (1%N, mkPost "The 2026 'Digital CEO' Manifesto"
                                    "c" "u" None "ceo" 95 0)]
             emptyDB emptyDB_wellKeyed).
  - vm_compute. reflexivity.
Defined.

(** Deleting a stored post removes that post and no other, and its id is
    never given out again: whatever is done afterwards, no post is stored
    under it, so a reminder left behind never comes to point at another
    post. *)
Theorem deleted_id_stays_free (db : DB) (k : N) (p : Post)
    (sel : option (N * Post)) (actions : list Action) :
  wellKeyed db →
  Dexie.rows (posts db) !! k = Some p →
  let db' := (handleDelete true sel (Some k) db).1.1 in
  Dexie.rows (posts db') !! k = None
  ∧ (∀ j, j ≠ k → Dexie.rows (posts db') !! j = Dexie.rows (posts db) !! j)
  ∧ Dexie.rows (posts (run actions db')) !! k = None.
Proof.
  intros [[_ Hkeys] _] Hp.
  specialize (Hkeys k). rewrite Hp in Hkeys.
  specialize (Hkeys (mk_is_Some _ _ eq_refl)).
  unfold handleDelete. destruct k as [|k]; [lia|]. simpl.
  split; [apply lookup_delete_eq|].
  split; [intros j Hj; by apply lookup_delete_ne|].
  assert (Hfree : (N.pos k < Dexie.next_key (posts (with_posts
                                  (Dexie.delete (N.pos k)) db)))%N
                  ∧ Dexie.rows (posts (with_posts (Dexie.delete (N.pos k)) db))
                      !! N.pos k = None).
  { simpl. split; [lia|apply lookup_delete_eq]. }
  revert Hfree. generalize (with_posts (Dexie.delete (N.pos k)) db).
  induction actions as [|a actions IH]; intros d [H1 H2]; [done|].
  simpl. apply IH. by apply perform_free.
Qed.

Lemma deleted_id_stays_free_witness :
  let db' := (handleDelete true None (Some 1%N) seededDB).1.1 in
  Dexie.rows (posts db') !! 1%N = None
  ∧ (∀ j, j ≠ 1%N →
          Dexie.rows (posts db') !! j = Dexie.rows (posts seededDB) !! j)
  ∧ Dexie.rows
      (posts (run [BulkGenerate (steadyWorld [draftA]) (config 3);
                   Seed 1 2] db')) !! 1%N = None.
Proof.
  apply (deleted_id_stays_free seededDB 1%N
           firstSeed).
  - apply (run_wellKeyed [Seed 50000 50000;
                          SetReminder (Some 40000)
                            (1%N, mkPost "The 2026 'Digital CEO' Manifesto"
                                    "c" "u" None "ceo" 95 0)]
             emptyDB emptyDB_wellKeyed).
  - vm_compute. reflexivity.
Defined.

End Kept.

(** ** More of the orchestrator *)

Section MoreBulk.

(** The events the loop can emit. *)
Let loopEvent (e : Event) : Prop :=
  match e with
  | TextRequest _ | ThumbnailRequest _ | ConsoleWarn _ | SetProgress _ => True
  | _ => False
  end.

Lemma newPosts_events (w : World) (g : GenConfig) (i j : nat)
    (ds : list Draft) :
  Forall loopEvent (newPosts w g i j ds).2.
Proof.
  revert j. induction ds as [|d ds IH]; intros j; simpl; [constructor|].
  assert (Hd : Forall loopEvent (newPost w g i j d).2).
  { unfold newPost.
    destruct (generateThumbnail _ _ _) as [[? ?]|?]; repeat constructor. }
  destruct (newPost w g i j d) as [q e1]. specialize (IH (S j)).
  destruct (newPosts w g i (S j) ds) as [qs e2]. simpl in *.
  by apply Forall_app.
Qed.

Lemma bulkLoop_events (w : World) (g : GenConfig) (n : Z) (todo : nat) :
  ∀ (i : nat) (t : Dexie.Table Post),
    Forall loopEvent (bulkLoop w g n todo i t).1.2.
Proof.
  induction todo as [|todo IH]; intros i t; simpl; [constructor|].
  destruct (generatePostsBulk (textService w i)) as [[ds|]|e];
    simpl; try by repeat constructor.
  pose proof (newPosts_events w g i 0 ds) as H1.
  destruct (newPosts w g i 0 ds) as [ps e1]. simpl in H1.
  specialize (IH (S i) (Dexie.bulkAdd ps t)).
  destruct (bulkLoop w g n todo (S i) (Dexie.bulkAdd ps t)) as [[t' e2] r].
  simpl in *. constructor; [done|]. apply Forall_app. split; [done|].
  by constructor.
Qed.

Lemma loopEvents_alerts (es : list Event) :
  Forall loopEvent es → alerts es = [] ∧ SetShowGenModal false ∉ es.
Proof.
  induction 1 as [|e es He _ [IH1 IH2]]; [split; [done|apply not_elem_of_nil]|].
  rewrite alerts_cons. split.
  - by destruct e.
  - intros Hin. apply elem_of_cons in Hin as [<-|Hin]; [done|by apply IH2].
Qed.

(** Whatever the services do, a run with a topic starts by raising the
    busy flag and zeroing the progress and ends by lowering the flag and
    zeroing the progress again; in between it either closes the dialog
    and alerts nobody, or alerts exactly once and leaves the dialog
    open. *)
Theorem bulk_generation_always_winds_up (w : World) (genConfig : GenConfig)
    (db : DB) :
  topic genConfig ≠ EmptyString →
  let es := (handleBulkGenerate w genConfig db).2 in
  (∃ mid, es = [SetIsGenerating true; SetProgress 0] ++ mid
               ++ [SetIsGenerating false; SetProgress 0])
  ∧ ((alerts es = [] ∧ SetShowGenModal false ∈ es)
     ∨ (alerts es
        = ["Generation encountered an error. Some posts may have been saved."]
        ∧ SetShowGenModal false ∉ es)).
Proof.
  intros Ht. unfold handleBulkGenerate.
  destruct (topic genConfig) as [|c s]; [done|].
  pose proof (bulkLoop_events w genConfig (iterations_of (count genConfig))
                (Z.to_nat (iterations_of (count genConfig))) 0 (posts db))
    as Hev.
  destruct (bulkLoop _ _ _ _ _ _) as [[t es] r]. simpl in Hev.
  apply loopEvents_alerts in Hev as [Hal Hmodal]. cbn [snd].
  split; [eexists; rewrite <- app_assoc; reflexivity|].
  destruct r as [[]|e]; [left|right]; log_norm; rewrite Hal;
    (split; [done|]); rewrite !elem_of_cons, !elem_of_app, !elem_of_cons.
  - do 3 right. by left.
  - intros [?|[?|[?|[?|[?|[?|[?|?%elem_of_nil]]]]]]]; done.
Qed.

Lemma bulk_generation_winds_up_witness :
  let es := (handleBulkGenerate outageWorld (config 12) emptyDB).2 in
  (∃ mid, es = [SetIsGenerating true; SetProgress 0] ++ mid
               ++ [SetIsGenerating false; SetProgress 0])
  ∧ ((alerts es = [] ∧ SetShowGenModal false ∈ es)
     ∨ (alerts es
        = ["Generation encountered an error. Some posts may have been saved."]
        ∧ SetShowGenModal false ∉ es)).
Proof.
  apply (bulk_generation_always_winds_up outageWorld (config 12) emptyDB).
  discriminate.
Defined.

(** Whatever the services do, bulk generation only adds posts: every post
    stored before the run is stored unchanged under the same id after it,
    and the reminders are not touched. *)
Theorem bulk_generation_only_adds (w : World) (genConfig : GenConfig)
    (db : DB) (k : N) (p : Post) :
  wellKeyed db →
  Dexie.rows (posts db) !! k = Some p →
  let db' := (handleBulkGenerate w genConfig db).1 in
  Dexie.rows (posts db') !! k = Some p
  ∧ (Dexie.count (posts db) ≤ Dexie.count (posts db'))%nat
  ∧ reminders db' = reminders db.
Proof.
  intros [[H1 Hkeys] _] Hp.
  destruct (handleBulkGenerate_adds w genConfig db) as (ps & Hps & Hrem).
  simpl. rewrite Hps. split; [|split; [|done]].
  - rewrite rows_bulkAdd_old; [done|].
    specialize (Hkeys k). rewrite Hp in Hkeys.
    specialize (Hkeys (mk_is_Some _ _ eq_refl)). lia.
  - rewrite count_bulkAdd by done. lia.
Qed.

Lemma bulk_generation_only_adds_witness :
  let db' := (handleBulkGenerate outageWorld (config 12) seededDB).1 in
  title <$> Dexie.rows (posts db') !! 2%N
  = Some "The Death of the 'Commodity' Freelancer"
  ∧ (Dexie.count (posts seededDB) ≤ Dexie.count (posts db'))%nat
  ∧ reminders db' = reminders seededDB.
Proof.
  pose proof (bulk_generation_only_adds outageWorld (config 12) seededDB 2%N
                secondSeed) as H.
  destruct H as (H1 & H2 & H3).
  - apply (run_wellKeyed [Seed 50000 50000;
                          SetReminder (Some 40000)
                            (1%N, mkPost "The 2026 'Digital CEO' Manifesto"
                                    "c" "u" None "ceo" 95 0)]
             emptyDB emptyDB_wellKeyed).
  - vm_compute. reflexivity.
  - split; [by rewrite H1|done].
Defined.

(** In a run that gets through [good] chunks, the number of posts stored
    grows by the number of drafts the text service returned for those
    chunks, whether that is more or fewer than were asked for. *)
Theorem stored_posts_follow_the_drafts (w : World) (genConfig : GenConfig)
    (db : DB) (drafts : nat → list Draft) (good : nat) :
  wellKeyed db →
  topic genConfig ≠ EmptyString →
  (good ≤ Z.to_nat (iterations_of (count genConfig)))%nat →
  (∀ k, (k < good)%nat →
        generatePostsBulk (textService w k) = Return (Some (drafts k))) →
  (good = Z.to_nat (iterations_of (count genConfig)) ∨
   ∀ ds, generatePostsBulk (textService w good) ≠ Return (Some ds)) →
  Dexie.count (posts (handleBulkGenerate w genConfig db).1)
  = (Dexie.count (posts db) + offset drafts good)%nat.
Proof.
  intros [Hkeys _] Ht Hle Hok Hend.
  pose proof (handleBulkGenerate_run w genConfig db Ht drafts good Hle Hok
                Hend) as H.
  destruct (handleBulkGenerate w genConfig db) as [db' es].
  destruct H as (Hposts & _). simpl. rewrite Hposts.
  by rewrite count_bulkAdd, chunks_length.
Qed.

Lemma stored_posts_follow_the_drafts_witness :
  textRequests (handleBulkGenerate generousWorld (config 10) emptyDB).2
  = [5; 5]
  ∧ Dexie.count (posts (handleBulkGenerate generousWorld (config 10)
                          emptyDB).1) = 14%nat.
Proof.
  split; [vm_compute; reflexivity|].
  apply (stored_posts_follow_the_drafts generousWorld (config 10) emptyDB
           (fun _ => [draftA; draftB; draftA; draftB; draftA; draftB; draftA])
           2).
  - apply emptyDB_wellKeyed.
  - discriminate.
  - vm_compute. lia.
  - intros k _. reflexivity.
  - left. vm_compute. reflexivity.
Defined.

Lemma sum_replicate (n : nat) (v : Z) :
  foldr Z.add 0 (replicate n v) = Z.of_nat n * v.
Proof. induction n as [|n IH]; simpl; [lia|]. rewrite IH. lia. Qed.

(** For a count C in [1,1000] and a run in which every text request
    returns drafts, the sizes asked for are each between 1 and 5 and add
    up to C: exactly as many drafts are requested as the user asked
    for. *)
Theorem requested_sizes_add_up (w : World) (genConfig : GenConfig) (db : DB) :
  topic genConfig ≠ EmptyString →
  1 ≤ count genConfig ≤ 1000 →
  (∀ i, (i < Z.to_nat (ceil_div (count genConfig) 5))%nat →
        ∃ ds, generatePostsBulk (textService w i) = Return (Some ds)) →
  let sizes := textRequests (handleBulkGenerate w genConfig db).2 in
  foldr Z.add 0 sizes = count genConfig
  ∧ Forall (fun s => 1 ≤ s ≤ 5) sizes.
Proof.
  intros Ht Hc Hok.
  pose proof (iterations_of_exact _ Hc) as Hn. change chunkSize with 5 in Hn.
  pose proof (handleBulkGenerate_run w genConfig db Ht (draftsOf w)
                (Z.to_nat (iterations_of (count genConfig)))) as H.
  destruct (handleBulkGenerate w genConfig db) as [db' es].
  destruct H as (_ & _ & Hreq & _); [lia| |by left|].
  { rewrite Hn. by apply every_request_answered. }
  rewrite decide_True in Hreq by done. simpl. rewrite Hreq, Hn.
  pose proof (batch_sizes (count genConfig) ltac:(lia)) as Hb.
  change chunkSize with 5 in Hb. rewrite Hb.
  pose proof (Z.div_mod (count genConfig) 5 ltac:(lia)) as Hdm.
  pose proof (Z.mod_pos_bound (count genConfig) 5 ltac:(lia)) as Hr.
  assert (0 ≤ count genConfig / 5) by (apply Z.div_pos; lia).
  split.
  - rewrite foldr_app.
    destruct (Z.eqb_spec (count genConfig mod 5) 0); simpl.
    + rewrite sum_replicate. lia.
    + replace (count genConfig `mod` 5 + 0)
        with (count genConfig `mod` 5) by lia.
      assert (Hgen : ∀ n a, foldr Z.add a (replicate n 5)
                            = Z.of_nat n * 5 + a).
      { intros m. induction m as [|m IH]; intros a; simpl; [lia|].
        rewrite IH. lia. }
      rewrite Hgen. lia.
  - apply Forall_app. split.
    + apply Forall_forall. intros s Hs.
      apply elem_of_replicate in Hs as [-> _]. lia.
    + destruct (Z.eqb_spec (count genConfig mod 5) 0); [constructor|].
      repeat constructor; lia.
Qed.

Lemma requested_sizes_add_up_witness :
  let sizes :=
    textRequests (handleBulkGenerate (steadyWorld [draftA]) (config 12)
                    emptyDB).2 in
  foldr Z.add 0 sizes = 12 ∧ Forall (fun s => 1 ≤ s ≤ 5) sizes.
Proof.
  apply (requested_sizes_add_up (steadyWorld [draftA]) (config 12) emptyDB).
  - discriminate.
  - unfold config; simpl; lia.
  - intros i _. by exists [draftA].
Defined.

End MoreBulk.

(** ** Thumbnails, edits and seeds *)

Section Thumbnails.

Lemma generateThumbnail_prompt (svc : ThumbnailService) (c : string)
    (custom : option string) (url prompt : string) :
  generateThumbnail svc c custom = Return (url, prompt) →
  prompt ≠ EmptyString
  ∧ (url = picsum (image_seed svc)
     ∨ ∃ data, url = "data:image/png;base64," +:+ data).
Proof.
  unfold generateThumbnail.
  destruct custom as [[|a r]|], (prompt_response svc) as [[[|b t]|]|e1],
    (image_response svc) as [[parts|]|e2]; simpl; try discriminate;
    destruct (omap _ parts); intros H; injection H as <- <-;
    (split; [discriminate|eauto]).
Qed.

(** [generateThumbnail] fails exactly when the image request is rejected,
    or its response has no parts to read, or no custom prompt was given
    and the prompt request is rejected.  When it returns, the prompt it
    returns is not empty and the reference is an inline image or the
    placeholder. *)
Theorem generateThumbnail_outcomes (svc : ThumbnailService) (c : string)
    (custom : option string) :
  ((∃ e, generateThumbnail svc c custom = Throw e)
   ↔ (∃ e, image_response svc = Throw e)
     ∨ image_response svc = Return None
     ∨ ((custom = None ∨ custom = Some EmptyString)
        ∧ ∃ e, prompt_response svc = Throw e))
  ∧ ∀ url prompt,
      generateThumbnail svc c custom = Return (url, prompt) →
      prompt ≠ EmptyString
      ∧ (url = picsum (image_seed svc)
         ∨ ∃ data, url = "data:image/png;base64," +:+ data).
Proof.
  split; [|intros url prompt; apply generateThumbnail_prompt].
  unfold generateThumbnail.
  destruct custom as [[|a r]|], (prompt_response svc) as [text|e1],
    (image_response svc) as [[parts|]|e2]; simpl;
    try destruct (omap _ parts);
    (split;
     [intros [e He]; try discriminate He; eauto 7
     |intros [[e He]|[He|[[He|He] [e He']]]]; try discriminate; eauto]).
Qed.

(** A custom prompt that is not empty is used as it is, and the prompt
    request plays no part: the result is the same whatever that request
    would have given. *)
Theorem custom_prompt_is_used_as_given (svc : ThumbnailService)
    (c : string) (a : Ascii.ascii) (r : string)
    (other : Result (option string)) :
  generateThumbnail
    (mkThumbnailService other (image_response svc) (image_seed svc)) c
    (Some (String a r))
  = generateThumbnail svc c (Some (String a r))
  ∧ ∀ url prompt,
      generateThumbnail svc c (Some (String a r)) = Return (url, prompt) →
      prompt = String a r.
Proof.
  unfold generateThumbnail. simpl. split; [done|]. intros url prompt.
  destruct (image_response svc) as [[parts|]|e]; try discriminate.
  destruct (omap _ parts); intros H; by injection H as _ <-.
Qed.

(** A post stored by bulk generation has an empty thumbnail prompt
    exactly when its thumbnail request failed, and then its reference is
    the placeholder. *)
Theorem empty_prompt_marks_fallback (w : World) (genConfig : GenConfig)
    (i j : nat) (d : Draft) :
  let q := (newPost w genConfig i j d).1 in
  (thumbnail_prompt q = Some EmptyString
   ↔ ∃ e, generateThumbnail (thumbnailService w i j) (d_content d) None
          = Throw e)
  ∧ (thumbnail_prompt q = Some EmptyString →
     thumbnail_url q = picsum (Math_random w i j)).
Proof.
  pose proof (generateThumbnail_prompt (thumbnailService w i j)
                (d_content d) None) as Hne.
  unfold newPost.
  destruct (generateThumbnail _ _ _) as [[url prompt]|e]; simpl.
  - destruct (Hne url prompt eq_refl) as [Hp _].
    split; [split|]; [intros [= ->]; done|intros [e He]; discriminate He|].
    intros [= ->]. done.
  - split; [split|]; [by eexists|done|done].
Qed.

(** Regenerating the thumbnail of a stored post changes nothing but the
    thumbnail reference and prompt of that post; if the generation fails
    the store stays as it was and the custom prompt is not cleared; either
    way the busy flag is lowered at the end. *)
Theorem regenerate_touches_only_the_thumbnail (svc : ThumbnailService)
    (sel : option (N * Post)) (custom : string) (k : N) (shown p : Post)
    (db : DB) :
  k ≠ 0%N →
  Dexie.rows (posts db) !! k = Some p →
  let '(db', es, res) :=
    handleRegenerateThumbnail svc sel custom (k, shown) db in
  res = Return tt
  ∧ last es = Some (SetIsRegeneratingThumb false)
  ∧ reminders db' = reminders db
  ∧ (∀ j, j ≠ k → Dexie.rows (posts db') !! j = Dexie.rows (posts db) !! j)
  ∧ match generateThumbnail svc (content shown) (Some custom) with
    | Return (url, prompt) =>
        Dexie.rows (posts db') !! k = Some (set_thumbnail url prompt p)
        ∧ SetCustomThumbPrompt EmptyString ∈ es
    | Throw _ =>
        db' = db ∧ SetCustomThumbPrompt EmptyString ∉ es
    end.
Proof.
  intros Hk Hp. unfold handleRegenerateThumbnail.
  destruct k as [|k]; [done|]. cbn [fst snd].
  destruct (generateThumbnail _ _ _) as [[url prompt]|e].
  - repeat split.
    + rewrite !last_app. done.
    + intros j Hj. simpl. by apply lookup_alter_ne.
    + simpl. by rewrite lookup_alter_eq, Hp.
    + rewrite !elem_of_app, !elem_of_cons. right. right. by left.
  - repeat split.
    rewrite !elem_of_cons.
    intros [?|[?|[?|?%elem_of_nil]]]; done.
Qed.

Lemma regenerate_witness :
  let '(db', es, res) :=
    handleRegenerateThumbnail imageOk None "a red desk"
      (2%N, mkPost "t" "c" "u" None "ceo" 92 0) seededDB in
  thumbnail_url <$> Dexie.rows (posts db') !! 2%N
  = Some "data:image/png;base64,AAAA"
  ∧ thumbnail_prompt <$> Dexie.rows (posts db') !! 2%N
    = Some (Some "a red desk")
  ∧ virality_score <$> Dexie.rows (posts db') !! 2%N = Some 92
  ∧ Dexie.rows (posts db') !! 1%N = Dexie.rows (posts seededDB) !! 1%N.
Proof.
  pose proof (regenerate_touches_only_the_thumbnail imageOk None "a red desk"
                2%N (mkPost "t" "c" "u" None "ceo" 92 0)
                secondSeed
                seededDB) as H.
  destruct (handleRegenerateThumbnail _ _ _ _ _) as [[db' es] res].
  destruct H as (_ & _ & _ & Hother & Hk & _);
    [done|vm_compute; reflexivity|].
  rewrite Hk, (Hother 1%N) by done. done.
Defined.

End Thumbnails.

Section Edits.

(** Saving an edit of a stored post replaces its title and content and
    nothing else: its thumbnail, style, score and creation time, every
    other post and every reminder stay as they were; saving the same edit
    again changes nothing more. *)
Theorem save_edit_round_trip (k : N) (shown p : Post) (t c : string)
    (db : DB) :
  k ≠ 0%N →
  Dexie.rows (posts db) !! k = Some p →
  let db' := (handleSaveEdit (Some (k, shown)) t c db).1.1 in
  Dexie.rows (posts db') !! k
  = Some (mkPost t c (thumbnail_url p) (thumbnail_prompt p) (style p)
            (virality_score p) (created_at p))
  ∧ (∀ j, j ≠ k → Dexie.rows (posts db') !! j = Dexie.rows (posts db) !! j)
  ∧ reminders db' = reminders db
  ∧ (handleSaveEdit (Some (k, shown)) t c db').1.1 = db'.
Proof.
  intros Hk Hp. unfold handleSaveEdit.
  destruct k as [|k]; [done|]. simpl. repeat split.
  - by rewrite lookup_alter_eq, Hp.
  - intros j Hj. by apply lookup_alter_ne.
  - unfold with_posts, Dexie.update. simpl. f_equal. f_equal.
    apply map_eq. intros j. destruct (decide (N.pos k = j)) as [<-|Hne].
    + rewrite !lookup_alter_eq. by destruct (Dexie.rows (posts db) !! _).
    + by rewrite !lookup_alter_ne.
Qed.

Lemma save_edit_round_trip_witness :
  let db' :=
    (handleSaveEdit (Some (2%N, mkPost "t" "c" "u" None "ceo" 92 0))
       "New title" "New text" seededDB).1.1 in
  Dexie.rows (posts db') !! 2%N
  = Some (mkPost "New title" "New text"
            "https://picsum.photos/seed/specialist/800/450" None "ceo" 92
            30000)
  ∧ Dexie.rows (posts db') !! 1%N = Dexie.rows (posts seededDB) !! 1%N
  ∧ reminders db' = reminders seededDB.
Proof.
  pose proof (save_edit_round_trip 2%N (mkPost "t" "c" "u" None "ceo" 92 0)
                secondSeed
                "New title" "New text" seededDB) as H.
  destruct H as (Hk & Hother & Hrem & _); [done|vm_compute; reflexivity|].
  split; [exact Hk|]. split; [by apply Hother|exact Hrem].
Defined.

(** The seeding effect counts, awaits, and then writes.  On an empty
    posts table a run that nothing interrupts stores two posts and a run
    started after it stores nothing more; but two runs that both count
    before either has written both write, and four posts are stored. *)
Theorem overlapping_seeds_store_twice (now1 now2 now3 now4 : Z) (db : DB) :
  Dexie.count (posts db) = 0%nat →
  let counted := Dexie.count (posts db) in
  Dexie.count (posts (seed now3 now4 (seed now1 now2 db))) = 2%nat
  ∧ Dexie.count
      (posts (seedWrite counted now3 now4 (seedWrite counted now1 now2 db)))
    = 4%nat.
Proof.
  intros H0. simpl. pose proof H0 as Hempty.
  unfold Dexie.count in Hempty. apply map_size_empty_iff in Hempty.
  assert (Hfirst : Dexie.count (posts (seedWrite 0 now1 now2 db)) = 2%nat).
  { unfold seedWrite. rewrite decide_True by done.
    unfold with_posts, Dexie.count. cbn [posts]. unfold seedPosts.
    unfold Dexie.bulkAdd.
    cbn [fold_left Dexie.add Dexie.rows Dexie.next_key]. rewrite Hempty.
    rewrite !map_size_insert_None, map_size_empty; [done|apply lookup_empty|].
    rewrite lookup_insert_ne by lia. apply lookup_empty. }
  split.
  - unfold seed at 2. rewrite H0. unfold seed. rewrite Hfirst.
    unfold seedWrite at 1. by rewrite decide_False.
  - rewrite H0. unfold seedWrite. rewrite !decide_True by done.
    unfold with_posts, Dexie.count. cbn [posts]. unfold seedPosts.
    unfold Dexie.bulkAdd.
    cbn [fold_left Dexie.add Dexie.rows Dexie.next_key]. rewrite Hempty.
    rewrite !map_size_insert_None, map_size_empty; [done|apply lookup_empty|..];
      rewrite ?lookup_insert_ne by lia; apply lookup_empty.
Qed.

Lemma overlapping_seeds_witness :
  Dexie.count (posts (seed 3 4 (seed 1 2 emptyDB))) = 2%nat
  ∧ Dexie.count (posts (seedWrite 0 3 4 (seedWrite 0 1 2 emptyDB))) = 4%nat.
Proof.
  apply (overlapping_seeds_store_twice 1 2 3 4 emptyDB). reflexivity.
Defined.

End Edits.

(** ** More of the reminder checker *)

Section MoreScheduler.

#[global] Instance index_le_total {A} (ix : A → Z) : Total (Dexie.index_le ix).
Proof. intros [k a] [j b]. unfold Dexie.index_le. simpl. lia. Qed.

#[global] Instance index_le_trans {A} (ix : A → Z) :
  Transitive (Dexie.index_le ix).
Proof. intros [k a] [j b] [i c]. unfold Dexie.index_le. simpl. lia. Qed.

Lemma StronglySorted_filter {A} (R : relation A) (P : A → Prop)
    `{∀ x, Decision (P x)} (l : list A) :
  StronglySorted R l → StronglySorted R (filter P l).
Proof.
  induction 1 as [|x l Hl IH Hx]; [constructor|].
  rewrite filter_cons. case_decide; [|done].
  constructor; [done|]. apply Forall_forall. intros y Hy.
  apply list_elem_of_filter in Hy as [_ Hy].
  rewrite Forall_forall in Hx. by apply Hx.
Qed.

Lemma orderBy_sorted {A} (ix : A → Z) (t : Dexie.Table A) :
  StronglySorted (Dexie.index_le ix) (Dexie.orderBy ix t).
Proof. unfold Dexie.orderBy. apply StronglySorted_merge_sort; apply _. Qed.

Lemma orderBy_elem {A} (ix : A → Z) (t : Dexie.Table A) (k : N) (x : A) :
  (k, x) ∈ Dexie.orderBy ix t ↔ Dexie.rows t !! k = Some x.
Proof.
  unfold Dexie.orderBy. by rewrite merge_sort_Permutation, elem_of_map_to_list.
Qed.

Lemma orderBy_NoDup {A} (ix : A → Z) (t : Dexie.Table A) :
  NoDup (Dexie.orderBy ix t).*1.
Proof.
  unfold Dexie.orderBy. rewrite merge_sort_Permutation.
  apply NoDup_fst_map_to_list.
Qed.

Lemma dueReminders_sorted (now : Z) (t : Dexie.Table Reminder) :
  StronglySorted Z.le ((fun r => time r.2) <$> dueReminders now t).
Proof.
  unfold dueReminders.
  apply (StronglySorted_fmap _ (Dexie.index_le time) Z.le).
  - intros [k a] [j b]. unfold Dexie.index_le. simpl. lia.
  - do 2 apply StronglySorted_filter. apply orderBy_sorted.
Qed.

(** With the Notification API present, one run of the checker notifies
    every reminder that is due and not yet fired, each once, in the order
    of their due times; it sets the flag of exactly those reminders and
    leaves all other reminders and all posts as they were. *)
Theorem tick_notifies_in_due_order (api : NotificationApi) (now : Z)
    (db : DB) :
  in_window api = true →
  let due := dueReminders now (reminders db) in
  let '(db', log, res) := tick api now db in
  res = Return tt
  ∧ log = (fun r => (r.1, reminderEvent api r.2)) <$> due
  ∧ NoDup due.*1
  ∧ StronglySorted Z.le ((fun r => time r.2) <$> due)
  ∧ posts db' = posts db
  ∧ ∀ k, Dexie.rows (reminders db') !! k
         = if decide (k ∈ due.*1)
           then set_notified true <$> Dexie.rows (reminders db) !! k
           else Dexie.rows (reminders db) !! k.
Proof.
  intros Hw. unfold tick.
  pose proof (notifyAll_rows api (dueReminders now (reminders db)) Hw
                (reminders db)) as H.
  destruct (notifyAll api _ _) as [[t log] res].
  destruct H as (Hres & Hlog & Hrows). simpl.
  repeat split; try done.
  - apply dueReminders_NoDup.
  - apply dueReminders_sorted.
Qed.

Lemma tick_notifies_in_due_order_witness :
  (tick notGranted 45000 twoRemindersDB).1.2.*1 = [2%N; 1%N].
Proof.
  pose proof (tick_notifies_in_due_order notGranted 45000 twoRemindersDB
                eq_refl) as H.
  destruct (tick notGranted 45000 twoRemindersDB) as [[db' log] res].
  destruct H as (_ & Hlog & _). simpl. rewrite Hlog.
  vm_compute. reflexivity.
Defined.

(** After a run of the checker with the Notification API present, nothing
    is left to do for that time or any earlier one: a second run notifies
    nobody and changes nothing. *)
Theorem tick_again_does_nothing (api : NotificationApi) (now now' : Z)
    (db : DB) :
  in_window api = true →
  now' ≤ now →
  let db1 := (tick api now db).1.1 in
  dueReminders now' (reminders db1) = []
  ∧ tick api now' db1 = (db1, [], Return tt).
Proof.
  intros Hw Hle.
  assert (Hrows : ∀ k,
             Dexie.rows (reminders (tick api now db).1.1) !! k
             = if decide (k ∈ (dueReminders now (reminders db)).*1)
               then set_notified true <$> Dexie.rows (reminders db) !! k
               else Dexie.rows (reminders db) !! k).
  { unfold tick.
    pose proof (notifyAll_rows api (dueReminders now (reminders db)) Hw
                  (reminders db)) as H.
    destruct (notifyAll api _ _) as [[t1 log] res].
    by destruct H as (_ & _ & H). }
  simpl. set (db1 := (tick api now db).1.1) in *.
  assert (Hnone : dueReminders now' (reminders db1) = []).
  { apply elem_of_nil_inv. intros [k r] Hin.
    apply dueReminders_elem in Hin as (Hr & Ht & Hn).
    rewrite Hrows in Hr. case_decide as Hk.
    - destruct (Dexie.rows (reminders db) !! k) as [r0|]; [|done].
      injection Hr as <-. done.
    - apply Hk. apply (list_elem_of_fmap_2 fst (dueReminders now _) (k, r)).
      apply dueReminders_elem. repeat split; [done|lia|done]. }
  split; [done|]. unfold tick. rewrite Hnone. simpl. by destruct db1.
Qed.

Lemma tick_again_does_nothing_witness :
  let db1 := (tick notGranted 45000 seededDB).1.1 in
  dueReminders 45000 (reminders db1) = []
  ∧ tick notGranted 45000 db1 = (db1, [], Return tt).
Proof.
  apply (tick_again_does_nothing notGranted 45000 45000 seededDB).
  - reflexivity.
  - lia.
Defined.

(** Whatever the Notification API does, a run of the checker does not
    notify a reminder before its time and does not change it; nor does it
    change any post. *)
Theorem tick_leaves_the_future_alone (api : NotificationApi) (now : Z)
    (db : DB) (rk : N) (r : Reminder) :
  Dexie.rows (reminders db) !! rk = Some r →
  now < time r →
  let '(db', log, res) := tick api now db in
  Dexie.rows (reminders db') !! rk = Some r
  ∧ deliveries rk log = []
  ∧ posts db' = posts db.
Proof.
  intros Hr Ht. unfold tick.
  assert (Hout : rk ∉ (dueReminders now (reminders db)).*1).
  { intros Hin. apply list_elem_of_fmap in Hin as ([k r'] & -> & Hin).
    apply dueReminders_elem in Hin as (Hr' & Ht' & _). simpl in Hr.
    rewrite Hr in Hr'. injection Hr' as <-. lia. }
  pose proof (notifyAll_frame api rk _ (reminders db) Hout) as H.
  destruct (notifyAll api _ _) as [[t' log] res]. simpl.
  destruct H as [-> ?]. done.
Qed.

Lemma tick_leaves_the_future_alone_witness :
  let '(db', log, res) := tick noNotificationApi 39999 seededDB in
  Dexie.rows (reminders db') !! 1%N
  = Some (mkReminder 1 "The 2026 'Digital CEO' Manifesto" 40000 false)
  ∧ deliveries 1 log = []
  ∧ posts db' = posts seededDB.
Proof.
  apply (tick_leaves_the_future_alone noNotificationApi 39999 seededDB 1%N
           (mkReminder 1 "The 2026 'Digital CEO' Manifesto" 40000 false)).
  - vm_compute. reflexivity.
  - simpl. lia.
Defined.

(** On a page without the Notification API a run of the checker changes
    nothing at all; it returns normally when no reminder is due and
    throws as soon as one is. *)
Theorem tick_without_the_api (api : NotificationApi) (now : Z) (db : DB) :
  in_window api = false →
  tick api now db
  = (db, [],
     match dueReminders now (reminders db) with
     | [] => Return tt
     | _ :: _ => Throw ReferenceError
     end).
Proof.
  intros Hw. unfold tick.
  destruct (dueReminders now (reminders db)) as [|r due]; simpl.
  - by destruct db.
  - unfold sendNotification. rewrite Hw. by destruct db.
Qed.

Lemma tick_without_the_api_witness :
  tick noNotificationApi 39999 seededDB = (seededDB, [], Return tt).
Proof.
  rewrite (tick_without_the_api noNotificationApi 39999 seededDB eq_refl).
  vm_compute. reflexivity.
Defined.

(** A reminder carries the title the post had when the reminder was set:
    if the post is edited afterwards, the notification still names the
    old title, while the post is stored with the new one. *)
Theorem reminder_keeps_the_title_it_was_set_with (api : NotificationApi)
    (db : DB) (k : N) (p : Post) (t now : Z) (newTitle newContent : string) :
  in_window api = true →
  k ≠ 0%N →
  Dexie.rows (posts db) !! k = Some p →
  t ≤ now →
  let db1 := (handleSetReminder (Some t) (k, p) db).1.1 in
  let db2 := (handleSaveEdit (Some (k, p)) newTitle newContent db1).1.1 in
  let '(db3, log, res) := tick api now db2 in
  title <$> Dexie.rows (posts db3) !! k = Some newTitle
  ∧ Return <$> deliveries (Dexie.next_key (reminders db)) log
    = [sendNotification api "Post Reminder" ("Time to share: " +:+ title p)].
Proof.
  intros Hw Hk Hp Ht. unfold handleSetReminder, handleSaveEdit.
  destruct k as [|k]; [done|]. cbn [fst snd]. unfold tick.
  set (r := mkReminder (N.pos k) (title p) t false).
  set (rs := Dexie.add r (reminders db)).
  assert (Hstored : Dexie.rows rs !! Dexie.next_key (reminders db) = Some r)
    by apply lookup_insert_eq.
  assert (Hdue : (Dexie.next_key (reminders db), r) ∈ dueReminders now rs)
    by by apply dueReminders_elem.
  pose proof (notifyAll_fires api _ r _ Hw (dueReminders_NoDup now rs) Hdue
                rs r Hstored) as Hfire.
  cbn [with_posts with_reminders posts reminders]. fold r. fold rs.
  destruct (notifyAll api _ _) as [[t' log] res].
  destruct Hfire as [_ Hlog]. cbn [fst snd posts]. split; [|exact Hlog].
  simpl. by rewrite lookup_alter_eq, Hp.
Qed.

Lemma reminder_keeps_the_title_witness :
  let db1 := (handleSetReminder (Some 100) (2%N, secondSeed) seededDB).1.1 in
  let db2 :=
    (handleSaveEdit (Some (2%N, secondSeed)) "New title" "New text" db1).1.1 in
  let '(db3, log, res) := tick notGranted 200 db2 in
  title <$> Dexie.rows (posts db3) !! 2%N = Some "New title"
  ∧ Return <$> deliveries 2%N log
    = [sendNotification notGranted "Post Reminder"
         ("Time to share: " +:+ "The Death of the 'Commodity' Freelancer")].
Proof.
  apply (reminder_keeps_the_title_it_was_set_with notGranted seededDB 2%N
           secondSeed 100 200 "New title" "New text").
  - reflexivity.
  - done.
  - vm_compute. reflexivity.
  - lia.
Defined.

End MoreScheduler.

(** ** The post list, its filters and the count field *)

Section PostList.

#[local] Instance flip_index_le_trans {A} (ix : A → Z) :
  Transitive (flip (Dexie.index_le ix)).
Proof. intros x y z Hxy Hyz. unfold flip in *. by etrans. Qed.

(** The post list shows every stored post, each once, newest first. *)
Theorem live_posts_newest_first (db : DB) :
  (∀ k p, (k, p) ∈ livePosts db ↔ Dexie.rows (posts db) !! k = Some p)
  ∧ NoDup (livePosts db).*1
  ∧ length (livePosts db) = Dexie.count (posts db)
  ∧ StronglySorted (flip Z.le) ((fun r => created_at r.2) <$> livePosts db).
Proof.
  unfold livePosts. repeat split.
  - rewrite elem_of_reverse. by apply orderBy_elem.
  - rewrite elem_of_reverse. by apply orderBy_elem.
  - rewrite fmap_reverse, reverse_Permutation. apply orderBy_NoDup.
  - rewrite length_reverse. unfold Dexie.orderBy, Dexie.count.
    by rewrite merge_sort_Permutation, length_map_to_list.
  - apply (StronglySorted_fmap _ (flip (Dexie.index_le created_at))
             (flip Z.le)).
    + intros [k a] [j b]. unfold flip, Dexie.index_le. simpl. lia.
    + apply Sorted_StronglySorted; [apply _|].
      apply Sorted_reverse, StronglySorted_Sorted, orderBy_sorted.
Qed.

Lemma prefix_spec (t s : string) :
  String.prefix t s = true ↔ ∃ b, s = t +:+ b.
Proof.
  revert t. induction s as [|d s IH]; intros [|c t]; simpl.
  - split; [intros _; by exists EmptyString|done].
  - split; [done|intros [b Hb]; discriminate Hb].
  - split; [intros _; by exists (String d s)|done].
  - destruct (Ascii.ascii_dec c d) as [->|Hne].
    + rewrite IH. split; intros [b Hb]; exists b; [by rewrite Hb|].
      by injection Hb.
    + split; [done|]. intros [b Hb]. by injection Hb as -> _.
Qed.

(** [includes] is the substring test. *)
Lemma includes_spec (s t : string) :
  includes s t = true ↔ ∃ a b, s = a +:+ t +:+ b.
Proof.
  induction s as [|c s IH]; cbn [includes].
  - rewrite orb_false_r, prefix_spec. split.
    + intros [b Hb]. by exists EmptyString, b.
    + intros ([|d a] & b & Hab); [by exists b|discriminate Hab].
  - rewrite orb_true_iff, prefix_spec, IH. split.
    + intros [[b Hb]|(a & b & Hab)].
      * by exists EmptyString, b.
      * exists (String c a), b. simpl. by rewrite Hab.
    + intros ([|d a] & b & Hab).
      * left. by exists b.
      * right. simpl in Hab. injection Hab as -> Hab. by exists a, b.
Qed.

Lemma includes_empty (s : string) : includes s EmptyString = true.
Proof. apply includes_spec. by exists EmptyString, s. Qed.

Lemma filter_narrows {A} (f g : A → bool) (l : list A) :
  (∀ x, f x = true → g x = true) →
  List.filter f l `sublist_of` List.filter g l.
Proof.
  intros Hfg. induction l as [|x l IH]; simpl; [constructor|].
  destruct (f x) eqn:Ef.
  - rewrite (Hfg x Ef). by constructor.
  - destruct (g x); [by constructor|done].
Qed.

Lemma filter_all {A} (f : A → bool) (l : list A) :
  (∀ x, x ∈ l → f x = true) → List.filter f l = l.
Proof.
  induction l as [|x l IH]; intros H; simpl; [done|].
  rewrite (H x) by apply list_elem_of_here. f_equal. apply IH.
  intros y Hy. by apply H, list_elem_of_further.
Qed.

Variable toLowerCase : string → string.

(** A post is listed exactly when the lower-cased search text occurs in
    its lower-cased title or content, its style is the selected one or
    all styles are selected, and its score is at least the minimum; the
    listed posts keep the order of the post list. *)
Theorem filtered_posts_are_the_matches (posts : list (N * Post))
    (searchQuery filterStyle : string) (minVirality : Z) :
  filteredPosts toLowerCase posts searchQuery filterStyle minVirality
    `sublist_of` posts
  ∧ ∀ k p,
      (k, p) ∈ filteredPosts toLowerCase posts searchQuery filterStyle
                 minVirality
      ↔ (k, p) ∈ posts
        ∧ ((∃ a b, toLowerCase (title p)
                   = a +:+ toLowerCase searchQuery +:+ b)
           ∨ (∃ a b, toLowerCase (content p)
                     = a +:+ toLowerCase searchQuery +:+ b))
        ∧ (filterStyle = "all" ∨ style p = filterStyle)
        ∧ minVirality ≤ virality_score p.
Proof.
  unfold filteredPosts. split.
  - replace posts with (List.filter (fun _ => true) posts) at 2
      by by apply filter_all.
    by apply filter_narrows.
  - intros k p. rewrite !list_elem_of_In, filter_In. unfold matchesFilters.
    simpl. rewrite !andb_true_iff, !orb_true_iff, !includes_spec,
      !bool_decide_eq_true, Z.leb_le. tauto.
Qed.

(** With the filters reset (no search text, all styles, minimum 0) the
    list shows every post whose score is not negative; and every other
    setting of the filters shows a part of what a setting with the same
    or a lower minimum, no search text and all styles shows. *)
Theorem filters_only_narrow (posts : list (N * Post))
    (searchQuery filterStyle : string) (minVirality lower : Z) :
  toLowerCase EmptyString = EmptyString →
  lower ≤ minVirality →
  filteredPosts toLowerCase posts searchQuery filterStyle minVirality
    `sublist_of` filteredPosts toLowerCase posts EmptyString "all" lower
  ∧ ((∀ r, r ∈ posts → 0 ≤ virality_score r.2) →
     filteredPosts toLowerCase posts EmptyString "all" 0 = posts).
Proof.
  intros Hlow Hle. unfold filteredPosts. split.
  - apply filter_narrows. intros [k p]. unfold matchesFilters. simpl.
    rewrite Hlow, !includes_empty.
    simpl. rewrite !andb_true_iff, !Z.leb_le. intros [_ Hm]. lia.
  - intros Hpos. apply filter_all. intros [k p] Hin.
    unfold matchesFilters. simpl. rewrite Hlow, !includes_empty. simpl.
    apply Z.leb_le. by apply (Hpos (k, p)).
Qed.

End PostList.

Lemma filters_only_narrow_witness :
  filteredPosts asciiLower (livePosts seededDB) "DEATH" "ceo" 50
    `sublist_of` filteredPosts asciiLower (livePosts seededDB) EmptyString
                   "all" 0
  ∧ filteredPosts asciiLower (livePosts seededDB) EmptyString "all" 0
    = livePosts seededDB
  ∧ (filteredPosts asciiLower (livePosts seededDB) "DEATH" "ceo" 50).*1
    = [2%N].
Proof.
  destruct (filters_only_narrow asciiLower (livePosts seededDB) "DEATH" "ceo"
              50 0 eq_refl) as [H1 H2]; [lia|].
  split; [exact H1|]. split; [|vm_compute; reflexivity].
  apply H2. intros r Hr. vm_compute in Hr.
  apply elem_of_cons in Hr as [->|Hr]; [simpl; lia|].
  apply elem_of_cons in Hr as [->|Hr]; [simpl; lia|].
  by apply elem_of_nil in Hr.
Defined.

Section CountField.

(** Whatever is typed into the number field, the stored count is between
    1 and 1000, a number in that range is stored as typed, and a run
    started with it makes between 1 and 200 iterations. *)
Theorem count_field_is_clamped (parsed : option Z) :
  1 ≤ countInput parsed ≤ 1000
  ∧ (∀ z, parsed = Some z → 1 ≤ z ≤ 1000 → countInput parsed = z)
  ∧ 1 ≤ iterations_of (countInput parsed) ≤ 200.
Proof.
  assert (H : 1 ≤ countInput parsed ≤ 1000).
  { unfold countInput. destruct parsed as [[|z|z]|]; lia. }
  split; [exact H|]. split.
  - intros z -> Hz. unfold countInput. destruct z; lia.
  - rewrite (iterations_of_exact _ H). unfold ceil_div, chunkSize. split.
    + apply Z.div_le_lower_bound; lia.
    + apply Z.lt_succ_r, Z.div_lt_upper_bound; lia.
Qed.

End CountField.

(** ** The CSV export *)

Section Csv.

Lemma readQuoted_doubleQuotes (s : string) :
  readQuoted (doubleQuotes s +:+ String quote EmptyString) = Some s.
Proof.
  induction s as [|c s IH]; simpl; [done|].
  destruct (decide (c = quote)) as [->|Hne]; simpl.
  - by rewrite IH.
  - rewrite decide_False by done. by rewrite IH.
Qed.

(** A title or content written to the export can be read back from its
    field exactly, whatever quotes, commas or line breaks it contains; so
    two different texts never give the same field. *)
Theorem csv_field_round_trip (s : string) :
  readField (csvField s) = Some s
  ∧ ∀ s', csvField s' = csvField s → s' = s.
Proof.
  assert (H : ∀ x, readField (csvField x) = Some x).
  { intros x. unfold readField, csvField. rewrite decide_True by done.
    apply readQuoted_doubleQuotes. }
  split; [apply H|]. intros s' Heq.
  apply (f_equal readField) in Heq. rewrite !H in Heq. by injection Heq.
Qed.

End Csv.

(** ** Permission to notify *)

Section Permission.

(** [requestNotificationPermission] answers true exactly when a
    notification sent afterwards is shown as a system notification; on a
    page without the Notification API it answers false, where
    [sendNotification] throws; and it leaves the permission alone when the
    API is missing or permission was granted before. *)
Theorem permission_predicts_the_channel (g : NotificationGlobal)
    (answer : Permission) (ntitle body : string) :
  let '(ok, g') := requestNotificationPermission g answer in
  (ok = true
   ↔ sendNotification (apiOf g') ntitle body
     = Return (Notification ntitle body))
  ∧ (exists_in_window g = false →
     ok = false ∧ g' = g
     ∧ sendNotification (apiOf g') ntitle body = Throw ReferenceError)
  ∧ (permission g = PermissionGranted → g' = g).
Proof.
  unfold requestNotificationPermission, sendNotification, apiOf.
  destruct g as [[|] p]; simpl.
  - destruct p, answer; simpl; repeat split; try done; discriminate.
  - repeat split; done.
Qed.

End Permission.

Section CsvLines.

Lemma append_assoc (a b c : string) : (a +:+ b) +:+ c = a +:+ b +:+ c.
Proof.
  induction a as [|x a IH]; [done|].
  change (String x ((a +:+ b) +:+ c) = String x (a +:+ b +:+ c)).
  by rewrite IH.
Qed.

Lemma join_snoc (sep : string) (x : string) (parts : list string) (y : string) :
  join sep ((x :: parts) ++ [y]) = join sep (x :: parts) +:+ sep +:+ y.
Proof.
  revert x. induction parts as [|z parts IH]; intros x; [done|].
  change (join sep ((x :: z :: parts) ++ [y]))
    with (x +:+ sep +:+ join sep ((z :: parts) ++ [y])).
  rewrite IH.
  change (join sep (x :: z :: parts)) with (x +:+ sep +:+ join sep (z :: parts)).
  by rewrite !append_assoc.
Qed.

(** The export is the header line followed by one line per post, in the
    order of the list: exporting a list with one more post at the end
    gives the same text with one more line, made of the quoted title, the
    quoted content, the style, the score and the creation time. *)
Theorem csv_export_appends (numberToString toISOString : Z → string)
    (posts : list (N * Post)) (k : N) (p : Post) :
  csvContent numberToString toISOString []
  = "Title,Content,Style,Virality Score,Created At"
  ∧ csvContent numberToString toISOString (posts ++ [(k, p)])
    = csvContent numberToString toISOString posts +:+ "
" +:+ csvField (title p) +:+ "," +:+ csvField (content p) +:+ ","
      +:+ style p +:+ "," +:+ numberToString (virality_score p) +:+ ","
      +:+ toISOString (created_at p).
Proof.
  split; [done|]. unfold csvContent.
  rewrite !map_app. cbn [map]. rewrite app_comm_cons, join_snoc.
  cbn [fst snd join]. by rewrite !append_assoc.
Qed.

End CsvLines.

Section Duplicates.

(** Reminders are not merged: setting a reminder twice for the same post
    and time stores two reminders, and the checker notifies both. *)
Theorem reminders_are_not_merged (api : NotificationApi) (db : DB)
    (post : N * Post) (t now : Z) :
  in_window api = true →
  t ≤ now →
  let db1 := (handleSetReminder (Some t) post db).1.1 in
  let db2 := (handleSetReminder (Some t) post db1).1.1 in
  let first := Dexie.next_key (reminders db) in
  let '(db3, log, res) := tick api now db2 in
  Return <$> deliveries first log
  = [sendNotification api "Post Reminder" ("Time to share: " +:+ title post.2)]
  ∧ Return <$> deliveries (N.succ first) log
    = [sendNotification api "Post Reminder"
         ("Time to share: " +:+ title post.2)].
Proof.
  intros Hw Ht. unfold handleSetReminder. cbn [fst snd]. unfold tick.
  cbn [with_reminders reminders posts].
  set (r := mkReminder post.1 (title post.2) t false).
  set (rs := Dexie.add r (Dexie.add r (reminders db))).
  assert (H1 : Dexie.rows rs !! Dexie.next_key (reminders db) = Some r).
  { unfold rs. simpl. rewrite lookup_insert_ne by lia.
    apply lookup_insert_eq. }
  assert (H2 : Dexie.rows rs !! N.succ (Dexie.next_key (reminders db))
               = Some r) by apply lookup_insert_eq.
  pose proof (notifyAll_fires api _ r _ Hw (dueReminders_NoDup now rs)
                (proj2 (dueReminders_elem now rs _ r)
                   (conj H1 (conj Ht eq_refl))) rs r H1) as Hf1.
  pose proof (notifyAll_fires api _ r _ Hw (dueReminders_NoDup now rs)
                (proj2 (dueReminders_elem now rs _ r)
                   (conj H2 (conj Ht eq_refl))) rs r H2) as Hf2.
  destruct (notifyAll api _ _) as [[t' log] res].
  destruct Hf1 as [_ Hf1], Hf2 as [_ Hf2]. done.
Qed.

Lemma reminders_are_not_merged_witness :
  let db1 := (handleSetReminder (Some 100) (2%N, secondSeed) emptyDB).1.1 in
  let db2 := (handleSetReminder (Some 100) (2%N, secondSeed) db1).1.1 in
  let '(db3, log, res) := tick notGranted 200 db2 in
  Return <$> deliveries 1%N log
  = [sendNotification notGranted "Post Reminder"
       ("Time to share: " +:+ "The Death of the 'Commodity' Freelancer")]
  ∧ Return <$> deliveries 2%N log
    = [sendNotification notGranted "Post Reminder"
         ("Time to share: " +:+ "The Death of the 'Commodity' Freelancer")].
Proof.
  apply (reminders_are_not_merged notGranted emptyDB (2%N, secondSeed)
           100 200).
  - reflexivity.
  - lia.
Defined.

End Duplicates.
